(** * PK/PD tumour-growth-inhibition simulator: schedule, ODE right-hand side
      and the stepwise dosed integration loop.

    Sources embedded here:
    - [10_C2.py]               fixed-interval regime (module [C2]),
    - [Simulations/10_C16.py]  cyclic 4 weeks ON / 2 weeks OFF regime (module [C16]).

    Python floats are read as the rationals they denote ([float := Q]) and
    their arithmetic as exact, except where the code turns a float into a
    count: the number of doses of the fixed-interval schedule and the frame
    step of the animations are computed with every operation rounded to the
    nearest double ([round_double]).  Integers of the cyclic schedule
    generator are [Z].  The two library functions the scripts call, [np.exp]
    and [scipy.integrate.solve_ivp], are not part of the repository and
    enter every definition as parameters. *)

From Stdlib Require Import QArith Qround Qabs Qpower ZArith List Lia Lqa Bool Sorted.
Import ListNotations.

Open Scope Q_scope.

(** ** Numbers *)

(** A Python [float], read as the rational it denotes. *)
Definition float : Type := Q.

(** [a < b] on floats, as a test. *)
Definition Qltb (a b : float) : bool := negb (Qle_bool b a).

(** ** Double-precision rounding *)

(** The nearest integer, a tie going to the even one. *)
Definition round_half_even (y : float) : Z :=
  let f := Qfloor y in
  match Qcompare (y - inject_Z f) (1 # 2) with
  | Lt => f
  | Gt => (f + 1)%Z
  | Eq => if Z.even f then f else (f + 1)%Z
  end.

(** The binary exponent of a positive rational: the [e] with
    [2^e <= x < 2^(e+1)]. *)
Definition binary_exponent (x : float) : Z :=
  let c := (Z.log2 (Qnum x) - Z.log2 (Zpos (Qden x)))%Z in
  if Qle_bool (2 ^ c) x then c else (c - 1)%Z.

(** The double nearest to a positive rational: 53 significant bits, the
    exponent no lower than -1022 (below it the spacing stays [2^-1074]),
    ties to even.  Overflow to infinity is not represented. *)
Definition round_positive (x : float) : float :=
  let e := Z.max (binary_exponent x) (-1022) in
  inject_Z (round_half_even (x / 2 ^ (e - 52))) * 2 ^ (e - 52).

(** The result of a double-precision operation whose exact value is [x]. *)
Definition round_double (x : float) : float :=
  match Qcompare x 0 with
  | Eq => 0
  | Gt => round_positive x
  | Lt => - round_positive (- x)
  end.

(** ** [np.arange] *)

(** [np.arange(start, stop, step)] on floats in exact arithmetic:
    [ceil((stop - start) / step)] values [start + i * step].  The time grids
    of the drivers are read this way. *)
Definition arange_len (start stop step : float) : nat :=
  Z.to_nat (Qceiling ((stop - start) / step)).

Definition arange (start stop step : float) : list float :=
  map (fun i : nat => start + inject_Z (Z.of_nat i) * step)
      (seq 0 (arange_len start stop step)).

(** [np.arange(start, stop, step)] in double arithmetic.  The length is the
    ceiling of the double [(stop - start) / step]; the first value is
    [start], the second the double [start + step], and the others are filled
    in as [start + i * delta] with [delta] the difference of the first
    two. *)
Definition np_arange_len (start stop step : float) : nat :=
  Z.to_nat (Qceiling (round_double (round_double (stop - start) / step))).

Definition np_arange (start stop step : float) : list float :=
  let first := round_double start in
  let next := round_double (start + step) in
  let delta := round_double (next - first) in
  map (fun i : nat =>
         match i with
         | O => first
         | S O => next
         | _ => round_double
                  (first + round_double (inject_Z (Z.of_nat i) * delta))
         end)
      (seq 0 (np_arange_len start stop step)).

(** ** Parameters and state *)

(** The module-level PK/PD constants of the scripts. *)
Record Params : Type := mkParams {
  ka : float;
  CL : float;
  V1 : float;
  V2 : float;
  Q : float;
  kge : float;
  kkill : float;
  lambda_res : float
}.

(** The values every script of the repository sets. *)
Definition script_params : Params :=
  {| ka := 3.024; CL := 818.4; V1 := 2700; V2 := 774; Q := 16.512;
     kge := 0.001; kkill := 0.1; lambda_res := 0.002 |}.

(** The state vector [y = [A_gut, Ac, Ap, TS, timeSinceTrtStart]]. *)
Record State : Type := mkState {
  A_gut : float;
  Ac : float;
  Ap : float;
  TS : float;
  timeSinceTrtStart : float
}.

(** The list [tgi_model] returns. *)
Record Deriv : Type := mkDeriv {
  dA_gut : float;
  dAc : float;
  dAp : float;
  dTS : float;
  dtimeSinceTrtStart : float
}.

(** ** The ODE right-hand side *)

Section RightHandSide.

(** [np.exp]. *)
Variable exp : float -> float.
Variable p : Params.

(** The kill coefficient [K] of [tgi_model]. *)
Definition kill_coefficient (y : State) (dose_active : bool) : float :=
  let EXPOSURE := Ac y / V1 p in
  if dose_active
  then kkill p * EXPOSURE * exp (- lambda_res p * timeSinceTrtStart y)
       * exp (- 0.1 * TS y)
  else 0.

(** [tgi_model(t, y, dose_active)]; [t] is not used by the body. *)
Definition tgi_model (t : float) (y : State) (dose_active : bool) : Deriv :=
  let k12 := Q p / V1 p in
  let k21 := Q p / V2 p in
  let dA_gut := - ka p * A_gut y in
  let dAc := ka p * A_gut y - k12 * Ac y - (CL p / V1 p) * Ac y + k21 * Ap y in
  let dAp := k12 * Ac y - k21 * Ap y in
  let dtimeSinceTrtStart := if dose_active then 1 else 0 in
  let K := kill_coefficient y dose_active in
  let dTS :=
    if Qltb 1e12 (TS y) then 0
    else if Qltb (TS y) 0.08 then - K * TS y
    else kge p * TS y - K * TS y in
  mkDeriv dA_gut dAc dAp dTS dtimeSinceTrtStart.

End RightHandSide.

(** The reference definition of the specification (section 4.2), clause by
    clause, with the specification's names and its case distinction on the
    tumour size written with propositions. *)
Section Reference.

Variable exp : float -> float.
Variables absorptionRate clearance V1' V2' intercompartmentalClearance
          growthRate killRate resistanceDecayRate : float.
Variables gutAmount centralAmount peripheralAmount tumorDiameter clock : float.
Variable active : bool.

Definition ref_k12 : float := intercompartmentalClearance / V1'.
Definition ref_k21 : float := intercompartmentalClearance / V2'.

Definition ref_d_gut : float := - absorptionRate * gutAmount.

Definition ref_d_central : float :=
  absorptionRate * gutAmount - ref_k12 * centralAmount
  - (clearance / V1') * centralAmount + ref_k21 * peripheralAmount.

Definition ref_d_peripheral : float :=
  ref_k12 * centralAmount - ref_k21 * peripheralAmount.

Definition ref_exposure : float := centralAmount / V1'.

Definition ref_d_clock : float := if active then 1 else 0.

Definition ref_K : float :=
  if active
  then killRate * ref_exposure * exp (- resistanceDecayRate * clock)
       * exp (- 0.1 * tumorDiameter)
  else 0.

Definition ref_d_tumor : float :=
  if Qlt_le_dec 1e12 tumorDiameter then 0
  else if Qlt_le_dec tumorDiameter 0.08 then - ref_K * tumorDiameter
  else growthRate * tumorDiameter - ref_K * tumorDiameter.

End Reference.

(** The reference right-hand side at a parameter record and a state vector. *)
Definition reference_rhs (exp : float -> float) (p : Params) (y : State)
    (active : bool) : Deriv :=
  {| dA_gut := ref_d_gut (ka p) (A_gut y);
     dAc := ref_d_central (ka p) (CL p) (V1 p) (V2 p) (Q p)
              (A_gut y) (Ac y) (Ap y);
     dAp := ref_d_peripheral (V1 p) (V2 p) (Q p) (Ac y) (Ap y);
     dTS := ref_d_tumor exp (V1 p) (kge p) (kkill p) (lambda_res p)
              (Ac y) (TS y) (timeSinceTrtStart y) active;
     dtimeSinceTrtStart := ref_d_clock active |}.

(** ** Dose schedules *)

(** Fixed-interval regime of [10_C2.py]:
    [dose_times = np.arange(0, treatment_duration+0.1, dose_interval)], in
    double arithmetic: the literal [0.1] is the double nearest to it and the
    sum is rounded. *)
Definition dose_times_fixed (treatment_duration dose_interval : float)
    : list float :=
  np_arange 0 (round_double (treatment_duration + round_double 0.1))
    dose_interval.

(** Cyclic regime of [Simulations/10_C16.py], on Python integers.  The body
    of [for d in range(28)]: *)
Definition on_block (treatment_duration t : Z) (dose_times : list Z) : list Z :=
  fold_left
    (fun acc d => if (t + d <? treatment_duration)%Z then acc ++ [(t + d)%Z] else acc)
    (map Z.of_nat (seq 0 28)) dose_times.

(** [while t < treatment_duration: ...; t += 42].  [None] when the fuel runs
    out before the loop condition fails. *)
Fixpoint while_on_off (fuel : nat) (treatment_duration t : Z)
    (dose_times : list Z) : option (list Z) :=
  if (t <? treatment_duration)%Z then
    match fuel with
    | O => None
    | S fuel' =>
        while_on_off fuel' treatment_duration (t + 42)%Z
          (on_block treatment_duration t dose_times)
    end
  else Some dose_times.

(** The schedule the script builds, starting from [dose_times = []], [t = 0];
    one unit of fuel per day of treatment is more than the loop uses. *)
Definition dose_times_cyclic (treatment_duration : Z) : option (list Z) :=
  while_on_off (Z.to_nat treatment_duration) treatment_duration 0 [].


(** The days [first, first + 1, ..., first + len - 1]. *)
Definition days (first : Z) (len : nat) : list Z :=
  map (fun d => (first + Z.of_nat d)%Z) (seq 0 len).

(** ** The dose test shared by the drivers *)

(** [dose_index < len(dose_times) and abs(t - dose_times[dose_index]) < 1e-6];
    the index is read only when the first test holds. *)
Definition dose_due (dose_times : list float) (t : float) (dose_index : nat)
    : bool :=
  (dose_index <? length dose_times)%nat
  && Qltb (Qabs (t - nth dose_index dose_times 0)) 1e-6.

(** The dose cursor after one dose test at time [t], and after the tests at
    the times [tested] in turn. *)
Definition next_index (dose_times : list float) (t : float) (i : nat) : nat :=
  if dose_due dose_times t i then S i else i.

Definition cursor_after (dose_times : list float) (tested : list float)
    (i : nat) : nat :=
  fold_left (fun i t => next_index dose_times t i) tested i.

(** Dose [k] is given at the [n]-th of the tests [tested], the cursor
    starting at [i0]. *)
Definition given_at (dose_times : list float) (tested : list float)
    (i0 n k : nat) : Prop :=
  exists t,
    nth_error tested n = Some t /\
    cursor_after dose_times (firstn n tested) i0 = k /\
    dose_due dose_times t k = true.

(** The discipline of the dose cursor, for a loop that makes its dose tests
    at the times [tested], starts with the cursor at [i0] and adds the bolus
    of dose [k] at iteration [n] when [given n k]: a bolus is added only for
    the dose under the cursor when the test time is within [1e-6] of it; no
    dose is given twice; doses are given in schedule order; and behind a
    dose that no test time comes within [1e-6] of, nothing is ever given. *)
Definition cursor_discipline (dose_times tested : list float) (i0 : nat)
    (given : nat -> nat -> Prop) : Prop :=
  (forall n k,
      given n k ->
      (k < length dose_times)%nat /\
      exists t, nth_error tested n = Some t /\
                Qabs (t - nth k dose_times 0) < 1e-6) /\
  (forall n m k, given n k -> given m k -> n = m) /\
  (forall n m k k', (n < m)%nat -> given n k -> given m k' -> (k < k')%nat) /\
  (forall k,
      (i0 <= k)%nat ->
      (forall t, In t tested -> ~ Qabs (t - nth k dose_times 0) < 1e-6) ->
      forall n k', given n k' -> (k' < k)%nat).

(** ** The solver interface *)

(** What [solve_ivp] returns: the time points reached, one state column per
    time point, and the status fields. *)
Record OdeResult : Type := mkOdeResult {
  sol_t : list float;
  sol_y : list State;
  sol_status : Z;
  sol_success : bool
}.

(** [solve_ivp(fun, t_span, y0, method='RK45', t_eval=...)]. *)
Definition Solver : Type :=
  (float -> State -> Deriv) -> float * float -> State -> list float ->
  OdeResult.

(** [sol.y[:, -1]]: the last column; indexing raises when there is none. *)
Definition last_column (sol : OdeResult) : option State :=
  match rev (sol_y sol) with
  | [] => None
  | y :: _ => Some y
  end.

(** ** The driver of [10_C2.py] (fixed-interval regime) *)

Module C2.

(** The variables the loop updates: the state, the dose cursor and the
    three result lists. *)
Record Loop : Type := mkLoop {
  state : State;
  dose_index : nat;
  TS_list : list float;
  EXPOSURE_list : list float;
  t_list : list float
}.

Section Driver.

Variable exp : float -> float.
Variable solve_ivp : Solver.
Variable p : Params.
Variable dose : float.
Variable dose_times : list float.
Variable treatment_duration : float.
Variable dt_step : float.

(** [A_gut += dose; dose_index += 1] under the dose test. *)
Definition bolus (t : float) (l : Loop) : Loop :=
  if dose_due dose_times t (dose_index l) then
    let y := state l in
    {| state := mkState (A_gut y + dose) (Ac y) (Ap y) (TS y)
                  (timeSinceTrtStart y);
       dose_index := (dose_index l + 1)%nat;
       TS_list := TS_list l;
       EXPOSURE_list := EXPOSURE_list l;
       t_list := t_list l |}
  else l.

(** [dose_active = t <= treatment_duration]. *)
Definition dose_active (t : float) : bool := Qle_bool t treatment_duration.

(** One iteration of [for t in t_eval]; [None] when taking the last
    column of [sol.y] raises. *)
Definition body (t : float) (l : Loop) : option Loop :=
  let l := bolus t l in
  let dose_active := dose_active t in
  let y_current := state l in
  let sol :=
    solve_ivp (fun t y => tgi_model exp p t y dose_active)
              (0, dt_step) y_current [dt_step] in
  match last_column sol with
  | None => None
  | Some y =>
      Some {| state := y;
              dose_index := dose_index l;
              TS_list := TS_list l ++ [TS y];
              EXPOSURE_list := EXPOSURE_list l ++ [Ac y / V1 p];
              t_list := t_list l ++ [t] |}
  end.

(** [for t in t_eval: ...]. *)
Fixpoint for_loop (t_eval : list float) (l : Loop) : option Loop :=
  match t_eval with
  | [] => Some l
  | t :: rest =>
      match body t l with
      | None => None
      | Some l' => for_loop rest l'
      end
  end.

(** The variables before the loop. *)
Definition initial (TS0 : float) : Loop :=
  {| state := mkState 0 0 0 TS0 0;
     dose_index := 0;
     TS_list := [];
     EXPOSURE_list := [];
     t_list := [] |}.

(** The bolus of dose [k] is added at iteration [n] of the loop over
    [t_eval] started from [l0]. *)
Definition bolus_at (t_eval : list float) (l0 : Loop) (n k : nat) : Prop :=
  exists t l,
    nth_error t_eval n = Some t /\
    for_loop (firstn n t_eval) l0 = Some l /\
    dose_index l = k /\
    dose_due dose_times t k = true.

End Driver.

(** The whole script: schedule, grid and loop. *)
Definition simulate (exp : float -> float) (solve_ivp : Solver) (p : Params)
    (TS0 dose treatment_duration dose_interval sim_duration dt_step : float)
    : option Loop :=
  let dose_times := dose_times_fixed treatment_duration dose_interval in
  let t_eval := arange 0 (sim_duration + dt_step) dt_step in
  for_loop exp solve_ivp p dose dose_times treatment_duration dt_step
    t_eval (initial TS0).

End C2.

(** ** The driver of [Simulations/10_C16.py] (cyclic regime) *)

Module C16.

(** The variables the loop updates; here the state is the list
    [y_current] and the loop keeps [t_current]. *)
Record Loop : Type := mkLoop {
  y_current : State;
  t_current : float;
  dose_index : nat;
  TS_list : list float;
  EXPOSURE_list : list float;
  t_list : list float
}.

(** [np.isclose(a, b, atol=atol)] with the default [rtol = 1e-5]. *)
Definition isclose (a b atol : float) : bool :=
  Qle_bool (Qabs (a - b)) (atol + 1e-5 * Qabs b).

Section Driver.

Variable exp : float -> float.
Variable solve_ivp : Solver.
Variable p : Params.
Variable dose : float.
Variable dose_times : list float.

(** [y_current[0] += dose; dose_index += 1] under the dose test at
    [t_current]. *)
Definition bolus (l : Loop) : Loop :=
  if dose_due dose_times (t_current l) (dose_index l) then
    let y := y_current l in
    {| y_current := mkState (A_gut y + dose) (Ac y) (Ap y) (TS y)
                      (timeSinceTrtStart y);
       t_current := t_current l;
       dose_index := (dose_index l + 1)%nat;
       TS_list := TS_list l;
       EXPOSURE_list := EXPOSURE_list l;
       t_list := t_list l |}
  else l.

(** [np.any(np.isclose(t_current, dose_times, atol=0.5))]. *)
Definition dose_active (t_current : float) : bool :=
  existsb (fun d => isclose t_current d 0.5) dose_times.

(** One iteration of [for t_next in t_eval[1:]]; both branches of the
    [hasattr] test take the last value of every row of [sol.y], and the
    unpacking raises when there is none. *)
Definition body (t_next : float) (l : Loop) : option Loop :=
  let l := bolus l in
  let dose_active := dose_active (t_current l) in
  let sol :=
    solve_ivp (fun tt yy => tgi_model exp p tt yy dose_active)
              (t_current l, t_next) (y_current l) [t_next] in
  match last_column sol with
  | None => None
  | Some y =>
      Some {| y_current := y;
              t_current := t_next;
              dose_index := dose_index l;
              TS_list := TS_list l ++ [TS y];
              EXPOSURE_list := EXPOSURE_list l ++ [Ac y / V1 p];
              t_list := t_list l ++ [t_next] |}
  end.

Fixpoint for_loop (t_nexts : list float) (l : Loop) : option Loop :=
  match t_nexts with
  | [] => Some l
  | t_next :: rest =>
      match body t_next l with
      | None => None
      | Some l' => for_loop rest l'
      end
  end.

(** The values [t_current] takes at the dose tests of the loop over
    [t_nexts]: its value before the loop, then every [t_next] but the
    last. *)
Fixpoint test_times (t_current : float) (t_nexts : list float)
    : list float :=
  match t_nexts with
  | [] => []
  | t_next :: rest => t_current :: test_times t_next rest
  end.

Definition initial (TS0 : float) : Loop :=
  {| y_current := mkState 0 0 0 TS0 0;
     t_current := 0;
     dose_index := 0;
     TS_list := [];
     EXPOSURE_list := [];
     t_list := [] |}.

(** The bolus of dose [k] is added at iteration [n] of the loop over
    [t_nexts] started from [l0]. *)
Definition bolus_at (t_nexts : list float) (l0 : Loop) (n k : nat) : Prop :=
  exists l,
    (n < length t_nexts)%nat /\
    for_loop (firstn n t_nexts) l0 = Some l /\
    dose_index l = k /\
    dose_due dose_times (t_current l) k = true.

End Driver.

(** The whole script, from a schedule of integer days. *)
Definition simulate (exp : float -> float) (solve_ivp : Solver) (p : Params)
    (TS0 dose : float) (days : list Z) (sim_duration dt_step : float)
    : option Loop :=
  let dose_times := map inject_Z days in
  let t_eval := arange 0 (sim_duration + dt_step) dt_step in
  for_loop exp solve_ivp p dose dose_times (tl t_eval) (initial TS0).

End C16.

(** ** Solvers and an exponential to run the drivers with *)

(** An explicit Runge-Kutta scheme: for every stage its node [c] and its row
    of coefficients [a], and the weights [b] of the stages. *)
Record Tableau : Type := mkTableau {
  stages : list (float * list float);
  weights : list float
}.

(** [y + h * d]. *)
Definition advance (y : State) (h : float) (d : Deriv) : State :=
  mkState (A_gut y + h * dA_gut d) (Ac y + h * dAc d) (Ap y + h * dAp d)
          (TS y + h * dTS d)
          (timeSinceTrtStart y + h * dtimeSinceTrtStart d).

(** [sum_j a_j * k_j] over the stages computed so far. *)
Fixpoint combine_stages (a : list float) (ks : list Deriv) : Deriv :=
  match a, ks with
  | a_j :: a', k_j :: ks' =>
      let d := combine_stages a' ks' in
      mkDeriv (a_j * dA_gut k_j + dA_gut d) (a_j * dAc k_j + dAc d)
              (a_j * dAp k_j + dAp d) (a_j * dTS k_j + dTS d)
              (a_j * dtimeSinceTrtStart k_j + dtimeSinceTrtStart d)
  | _, _ => mkDeriv 0 0 0 0 0
  end.

(** The stages [k_i = f(t + c_i h, y + h * sum_j a_ij k_j)], in order. *)
Fixpoint rk_stages (f : float -> State -> Deriv) (t h : float) (y : State)
    (rows : list (float * list float)) (ks : list Deriv) : list Deriv :=
  match rows with
  | [] => ks
  | (c, a) :: rows' =>
      let k := f (t + c * h) (advance y h (combine_stages a ks)) in
      rk_stages f t h y rows' (ks ++ [k])
  end.

(** One step [y + h * sum_i b_i k_i]. *)
Definition rk_step (tb : Tableau) (f : float -> State -> Deriv)
    (t h : float) (y : State) : State :=
  advance y h (combine_stages (weights tb) (rk_stages f t h y (stages tb) [])).

(** The steps of sizes [hs] one after the other. *)
Fixpoint rk_steps (tb : Tableau) (f : float -> State -> Deriv) (t : float)
    (y : State) (hs : list float) : State :=
  match hs with
  | [] => y
  | h :: hs' => rk_steps tb f (t + h) (rk_step tb f t h y) hs'
  end.

(** A Runge-Kutta solver: the step sizes come from a step-size controller,
    the state after the last step is the one column returned, and the solve
    is reported as converged. *)
Definition rk_solver (tb : Tableau)
    (controller : (float -> State -> Deriv) -> float * float -> State ->
                  list float) : Solver :=
  fun f t_span y0 t_eval =>
    {| sol_t := t_eval;
       sol_y := [rk_steps tb f (fst t_span) y0 (controller f t_span y0)];
       sol_status := 0;
       sol_success := true |}.

(** The controller that takes the whole window in one step. *)
Definition whole_window (f : float -> State -> Deriv) (t_span : float * float)
    (y0 : State) : list float :=
  [snd t_span - fst t_span].

(** Explicit Euler, [y + h * f(t, y)], and the classical scheme of order 4. *)
Definition euler_tableau : Tableau :=
  {| stages := [(0, [])]; weights := [1] |}.

Definition rk4_tableau : Tableau :=
  {| stages := [(0, []); (1 # 2, [1 # 2]); (1 # 2, [0; 1 # 2]); (1, [0; 0; 1])];
     weights := [1 # 6; 1 # 3; 1 # 3; 1 # 6] |}.

(** One explicit Euler step over the whole window. *)
Definition euler_solver : Solver := rk_solver euler_tableau whole_window.

(** A solver that gives up in every window.  A solve that fails has not
    reached the requested time: it returns no time point and no column, and
    reports status -1. *)
Definition empty_solver : Solver :=
  fun f t_span y0 t_eval =>
    {| sol_t := []; sol_y := []; sol_status := (-1)%Z; sol_success := false |}.

(** One explicit Euler step over the whole window, given up when the gut
    compartment empties faster than [limit] at the start of the window. *)
Definition steepness_limited_solver (limit : float) : Solver :=
  fun f t_span y0 t_eval =>
    if Qltb limit (Qabs (dA_gut (f (fst t_span) y0)))
    then empty_solver f t_span y0 t_eval
    else euler_solver f t_span y0 t_eval.

(** A rational stand-in for [np.exp]: the Taylor polynomial of degree 2. *)
Definition exp_taylor (x : float) : float := 1 + x + x * x / 2.

(** ** Assumptions on the solver *)

(** Every call returns at least one state column. *)
Definition returns_a_column (solve_ivp : Solver) : Prop :=
  forall f t_span y0 t_eval, sol_y (solve_ivp f t_span y0 t_eval) <> [].

(** A clock whose derivative is zero everywhere comes back unchanged, as
    every Runge-Kutta step [y + h * sum b_i k_i] gives. *)
Definition keeps_constant_clock (solve_ivp : Solver) : Prop :=
  forall f t_span y0 t_eval y1,
    (forall t y, dtimeSinceTrtStart (f t y) == 0) ->
    last_column (solve_ivp f t_span y0 t_eval) = Some y1 ->
    timeSinceTrtStart y1 == timeSinceTrtStart y0.

(** ** Solver failure as the specification wants it handled *)

(** The run over [t_eval] aborts whenever the solver reports a failed
    solve in one of its windows. *)
Definition failure_aborts_run (exp : float -> float) (solve_ivp : Solver)
    (p : Params) (dose : float) (dose_times : list float)
    (treatment_duration dt_step : float) (t_eval : list float)
    (l0 : C2.Loop) : Prop :=
  forall (done : list float) (t : float) (rest : list float) (l : C2.Loop),
    t_eval = done ++ t :: rest ->
    C2.for_loop exp solve_ivp p dose dose_times treatment_duration dt_step
      done l0 = Some l ->
    sol_success
      (solve_ivp
         (fun t0 y =>
            tgi_model exp p t0 y (C2.dose_active treatment_duration t))
         (0, dt_step)
         (C2.state (C2.bolus dose dose_times t l)) [dt_step]) = false ->
    C2.for_loop exp solve_ivp p dose dose_times treatment_duration dt_step
      t_eval l0 = None.

(** A solve that reports failure returns no column: [solve_ivp] stores the
    state at a requested time only once the integration has reached it, and
    the only time the drivers request is the end of the window. *)
Definition fails_without_column (solve_ivp : Solver) : Prop :=
  forall f t_span y0 t_eval,
    sol_success (solve_ivp f t_span y0 t_eval) = false ->
    sol_y (solve_ivp f t_span y0 t_eval) = [].

(** The failing time is reported: it can be read off the outcome of every
    run in which the solve of the window at [t] fails.  The outcome [None]
    stands for the uncaught exception of the indexing [sol.y[:, -1]], whose
    message is the same in every window. *)
Definition failing_time_reported (exp : float -> float) (solve_ivp : Solver)
    (p : Params) : Prop :=
  exists report : option C2.Loop -> float,
    forall (dose : float) (dose_times : list float)
           (treatment_duration dt_step : float) (t_eval : list float)
           (l0 : C2.Loop) (done : list float) (t : float)
           (rest : list float) (l : C2.Loop),
      t_eval = done ++ t :: rest ->
      C2.for_loop exp solve_ivp p dose dose_times treatment_duration dt_step
        done l0 = Some l ->
      sol_success
        (solve_ivp
           (fun t0 y =>
              tgi_model exp p t0 y (C2.dose_active treatment_duration t))
           (0, dt_step)
           (C2.state (C2.bolus dose dose_times t l)) [dt_step]) = false ->
      report
        (C2.for_loop exp solve_ivp p dose dose_times treatment_duration
           dt_step t_eval l0) == t.

(** ** Quantities used to state further properties *)

(** Administration days before day [z]: 28 per full cycle and at most 28 of
    the cycle under way. *)
Definition days_before (z : Z) : Z := (28 * (z / 42) + Z.min 28 (z mod 42))%Z.

(** A clock whose derivative is the constant [c] advances by [c] times the
    length of the window, as every consistent Runge-Kutta scheme gives. *)
Definition integrates_constant_clock (solve_ivp : Solver) : Prop :=
  forall f t_span y0 t_eval y1 c,
    (forall t y, dtimeSinceTrtStart (f t y) == c) ->
    last_column (solve_ivp f t_span y0 t_eval) = Some y1 ->
    timeSinceTrtStart y1 ==
    timeSinceTrtStart y0 + c * (snd t_span - fst t_span).

(** The sum of the weights of a scheme. *)
Definition weight_sum (tb : Tableau) : float :=
  fold_right Qplus 0 (weights tb).

(** ** The frames of the animated scripts *)

(** [int(x)] of a float: truncation towards zero. *)
Definition py_int (x : float) : Z :=
  if Qle_bool 0 x then Qfloor x else Qceiling x.

(** [np.arange(0, n, step)] on integers: [ceil(n / step)] values
    [i * step], none when that count is not positive; a zero step raises. *)
Definition arange_int (n step : Z) : option (list Z) :=
  if (step =? 0)%Z then None
  else Some (map (fun i : nat => (Z.of_nat i * step)%Z)
               (seq 0 (Z.to_nat (- (- n / step))))).

(** [a[i]] with Python's negative indices; [None] when it raises. *)
Definition py_get {A : Type} (a : list A) (i : Z) : option A :=
  if (i <? 0)%Z then
    if (- i <=? Z.of_nat (length a))%Z
    then nth_error a (Z.to_nat (Z.of_nat (length a) + i))
    else None
  else nth_error a (Z.to_nat i).

(** [a[:j]] with Python's negative bounds. *)
Definition py_upto {A : Type} (a : list A) (j : Z) : list A :=
  if (j <? 0)%Z then firstn (Z.to_nat (Z.of_nat (length a) + j)) a
  else firstn (Z.to_nat j) a.

(** [frame_indices = np.arange(0, len(t_array), int(10/dt_step))]; the
    quotient is the double nearest to [10 / dt_step], and the division
    raises for a zero step size. *)
Definition every_ten_days (len_t_array : nat) (dt_step : float)
    : option (list Z) :=
  if Qeq_bool dt_step 0 then None
  else arange_int (Z.of_nat len_t_array)
         (py_int (round_double (10 / dt_step))).

(** [Simulations/01_C2.py]: one frame every ten days. *)
Module A01.

Definition frame_indices (len_t_array : nat) (dt_step : float)
    : option (list Z) :=
  every_ten_days len_t_array dt_step.

End A01.

(** [Simulations/1_C17 copy.py]: one frame every ten days, and the last
    sample appended when it is not among them. *)
Module C17.

Definition frame_indices (len_t_array : nat) (dt_step : float)
    : option (list Z) :=
  match every_ten_days len_t_array dt_step with
  | None => None
  | Some frame_indices =>
      match py_get frame_indices (-1) with
      | None => None
      | Some last_frame =>
          if negb (last_frame =? Z.of_nat len_t_array - 1)%Z
          then Some (frame_indices ++ [(Z.of_nat len_t_array - 1)%Z])
          else Some frame_indices
      end
  end.

End C17.

(** What [update(frame_idx)] computes before it draws: the sample index, the
    radius of the sphere, the day of the title and the three slices of the
    curves. *)
Record Frame : Type := mkFrame {
  frame : Z;
  R : float;
  day : float;
  t_shown : list float;
  TS_shown : list float;
  EXPOSURE_shown : list float
}.

(** [update(frame_idx)] of both animated scripts; [None] when an index
    raises. *)
Definition update (frame_indices : list Z)
    (t_array TS_array EXPOSURE_array : list float) (frame_idx : Z)
    : option Frame :=
  match py_get frame_indices frame_idx with
  | None => None
  | Some frame =>
      match py_get TS_array frame with
      | None => None
      | Some ts =>
          match py_get t_array frame with
          | None => None
          | Some t =>
              Some {| frame := frame;
                      R := ts / 2;
                      day := t;
                      t_shown := py_upto t_array (frame + 1);
                      TS_shown := py_upto TS_array (frame + 1);
                      EXPOSURE_shown := py_upto EXPOSURE_array (frame + 1) |}
          end
      end
  end.

(** * Theorems *)

(** ** Comparisons *)

Lemma Qltb_lt (a b : float) : Qltb a b = true <-> a < b.
Proof.
  unfold Qltb. rewrite negb_true_iff, <- not_true_iff_false, Qle_bool_iff.
  split; intro H; lra.
Qed.

Lemma Qltb_ge (a b : float) : Qltb a b = false <-> b <= a.
Proof.
  unfold Qltb. rewrite negb_false_iff, Qle_bool_iff. reflexivity.
Qed.

(** ** Double-precision rounding *)

(** Powers of two. *)
Lemma pow2_pos (e : Z) : 0 < 2 ^ e.
Proof. apply Qpower_0_lt. reflexivity. Qed.

Lemma pow2_le (a b : Z) : (a <= b)%Z -> 2 ^ a <= 2 ^ b.
Proof. intros H. apply Qpower_le_compat_l; [exact H | discriminate]. Qed.

Lemma pow2_lt_inv (a b : Z) : 2 ^ a < 2 ^ b -> (a < b)%Z.
Proof. intros H. apply (Qpower_lt_compat_l_inv 2); [exact H | reflexivity]. Qed.

Lemma pow2_plus (a b : Z) : 2 ^ (a + b) == 2 ^ a * 2 ^ b.
Proof. apply Qpower_plus. discriminate. Qed.

Lemma pow2_succ (e : Z) : 2 ^ (e + 1) == 2 * 2 ^ e.
Proof. rewrite pow2_plus. change (2 ^ 1) with 2. ring. Qed.

Lemma pow2_inject (k : Z) : (0 <= k)%Z -> inject_Z (2 ^ k) == 2 ^ k.
Proof. intros H. apply (Zpower_Qpower 2 k H). Qed.

(** The binary exponent brackets its argument, and is the only exponent
    that does. *)
Lemma binary_exponent_spec (x : float) :
  0 < x -> 2 ^ binary_exponent x <= x /\ x < 2 ^ (binary_exponent x + 1).
Proof.
  intros Hx. unfold binary_exponent.
  destruct x as [n d]. cbn [Qnum Qden].
  assert (Hn : (0 < n)%Z).
  { unfold Qlt in Hx. cbn in Hx. lia. }
  destruct (Z.log2_spec n Hn) as [Hn1 Hn2].
  destruct (Z.log2_spec (Z.pos d) (Pos2Z.is_pos d)) as [Hd1 Hd2].
  pose proof (Z.log2_nonneg n) as Hln.
  pose proof (Z.log2_nonneg (Z.pos d)) as Hld.
  set (ln := Z.log2 n) in *. set (ld := Z.log2 (Z.pos d)) in *.
  assert (HA : 2 ^ ln <= inject_Z n).
  { rewrite <- pow2_inject by exact Hln. rewrite <- Zle_Qle. exact Hn1. }
  assert (HA' : inject_Z n < 2 * 2 ^ ln).
  { rewrite <- pow2_succ, <- pow2_inject by lia. rewrite <- Zlt_Qlt.
    exact Hn2. }
  assert (HB : 2 ^ ld <= inject_Z (Z.pos d)).
  { rewrite <- pow2_inject by exact Hld. rewrite <- Zle_Qle. exact Hd1. }
  assert (HB' : inject_Z (Z.pos d) < 2 * 2 ^ ld).
  { rewrite <- pow2_succ, <- pow2_inject by lia. rewrite <- Zlt_Qlt.
    exact Hd2. }
  assert (Hx' : (n # d) * inject_Z (Z.pos d) == inject_Z n).
  { rewrite (Qmake_Qdiv n d). field. discriminate. }
  pose proof (pow2_pos ln) as HpA. pose proof (pow2_pos ld) as HpB.
  assert (Hc : 2 ^ (ln - ld) * 2 ^ ld == 2 ^ ln).
  { rewrite <- pow2_plus. apply Qpower_comp; [reflexivity | lia]. }
  pose proof (pow2_pos (ln - ld)) as HpC.
  set (A := 2 ^ ln) in *. set (B := 2 ^ ld) in *. set (C := 2 ^ (ln - ld)) in *.
  set (X := n # d) in *. set (N := inject_Z n) in *.
  set (Dd := inject_Z (Z.pos d)) in *.
  destruct (Qle_bool C X) eqn:Hb.
  - apply Qle_bool_iff in Hb. split; [exact Hb |].
    rewrite pow2_succ. fold C.
    (* X * B <= X * Dd = N < 2 A = 2 C B *)
    apply (Qmult_lt_r _ _ B HpB).
    apply Qle_lt_trans with (X * Dd).
    + apply Qmult_le_l; [exact Hx | exact HB].
    + rewrite Hx'. apply Qlt_le_trans with (2 * A); [exact HA' |].
      rewrite <- Hc. apply Qle_lteq. right. ring.
  - assert (Hlt : X < C).
    { apply Qnot_le_lt. intros H. apply Qle_bool_iff in H. congruence. }
    split.
    + (* 2^(c-1) <= X *)
      assert (Hh : 2 * 2 ^ (ln - ld - 1) == C).
      { rewrite <- pow2_succ. apply Qpower_comp; [reflexivity | lia]. }
      pose proof (pow2_pos (ln - ld - 1)) as HpH.
      set (H2 := 2 ^ (ln - ld - 1)) in *.
      apply (Qmult_le_r _ _ (2 * B)); [lra |].
      apply Qle_trans with A.
      * rewrite <- Hc, <- Hh. apply Qle_lteq. right. ring.
      * apply Qle_trans with N; [exact HA |].
        rewrite <- Hx'. apply Qmult_le_l; [exact Hx | lra].
    + assert (He : 2 ^ (ln - ld - 1 + 1) == C).
      { apply Qpower_comp; [reflexivity | lia]. }
      rewrite He. exact Hlt.
Qed.

Lemma binary_exponent_unique (x : float) (a : Z) :
  0 < x -> 2 ^ a <= x -> x < 2 ^ (a + 1) -> binary_exponent x = a.
Proof.
  intros Hx Ha1 Ha2.
  destruct (binary_exponent_spec x Hx) as [Hb1 Hb2].
  assert (H1 : (binary_exponent x < a + 1)%Z).
  { apply pow2_lt_inv. eapply Qle_lt_trans; eassumption. }
  assert (H2 : (a < binary_exponent x + 1)%Z).
  { apply pow2_lt_inv. eapply Qle_lt_trans; eassumption. }
  lia.
Qed.

Lemma binary_exponent_comp (x y : float) :
  0 < x -> x == y -> binary_exponent x = binary_exponent y.
Proof.
  intros Hx Hxy. assert (Hy : 0 < y) by (rewrite <- Hxy; exact Hx).
  destruct (binary_exponent_spec y Hy) as [H1 H2].
  apply binary_exponent_unique; [exact Hx | |]; rewrite Hxy; assumption.
Qed.

Lemma binary_exponent_mono (x y : float) :
  0 < x -> x <= y -> (binary_exponent x <= binary_exponent y)%Z.
Proof.
  intros Hx Hxy. assert (Hy : 0 < y) by (eapply Qlt_le_trans; eassumption).
  destruct (binary_exponent_spec x Hx) as [Hx1 Hx2].
  destruct (binary_exponent_spec y Hy) as [Hy1 Hy2].
  assert (H : (binary_exponent x < binary_exponent y + 1)%Z).
  { apply pow2_lt_inv. eapply Qle_lt_trans; [exact Hx1 |].
    eapply Qle_lt_trans; eassumption. }
  lia.
Qed.

(** Rounding to the nearest integer is monotone and fixes the integers. *)
Lemma round_half_even_range (y : float) :
  round_half_even y = Qfloor y \/ round_half_even y = (Qfloor y + 1)%Z.
Proof.
  unfold round_half_even.
  destruct (Qcompare (y - inject_Z (Qfloor y)) (1 # 2)); auto.
  destruct (Z.even (Qfloor y)); auto.
Qed.

Lemma round_half_even_comp (y1 y2 : float) :
  y1 == y2 -> round_half_even y1 = round_half_even y2.
Proof.
  intros H. unfold round_half_even.
  rewrite (Qfloor_comp _ _ H).
  assert (Hc : Qcompare (y1 - inject_Z (Qfloor y2)) (1 # 2)
               = Qcompare (y2 - inject_Z (Qfloor y2)) (1 # 2)).
  { apply Qcompare_comp; [rewrite H |]; reflexivity. }
  rewrite Hc. reflexivity.
Qed.

Lemma round_half_even_inject (z : Z) : round_half_even (inject_Z z) = z.
Proof.
  unfold round_half_even. rewrite Qfloor_Z.
  assert (H : Qcompare (inject_Z z - inject_Z z) (1 # 2) = Lt).
  { apply Qlt_alt. setoid_replace (inject_Z z - inject_Z z) with 0 by ring.
    reflexivity. }
  rewrite H. reflexivity.
Qed.

Lemma round_half_even_mono (y1 y2 : float) :
  y1 <= y2 -> (round_half_even y1 <= round_half_even y2)%Z.
Proof.
  intros H. pose proof (Qfloor_resp_le _ _ H) as Hf.
  destruct (Z.eq_dec (Qfloor y1) (Qfloor y2)) as [He | Hne].
  - unfold round_half_even. rewrite He.
    set (f := Qfloor y2).
    destruct (Qcompare_spec (y1 - inject_Z f) (1 # 2)) as [H1 | H1 | H1];
      destruct (Qcompare_spec (y2 - inject_Z f) (1 # 2)) as [H2 | H2 | H2];
      try (destruct (Z.even f)); try lia; exfalso; lra.
  - destruct (round_half_even_range y1) as [-> | ->];
      destruct (round_half_even_range y2) as [-> | ->]; lia.
Qed.

Lemma round_half_even_ge (z : Z) (y : float) :
  inject_Z z <= y -> (z <= round_half_even y)%Z.
Proof.
  intros H. rewrite <- (round_half_even_inject z).
  apply round_half_even_mono. exact H.
Qed.

Lemma round_half_even_le (z : Z) (y : float) :
  y <= inject_Z z -> (round_half_even y <= z)%Z.
Proof.
  intros H. rewrite <- (round_half_even_inject z).
  apply round_half_even_mono. exact H.
Qed.

(** The double nearest to a positive rational stays in the binade of its
    argument. *)
Lemma round_positive_comp (x y : float) :
  0 < x -> x == y -> round_positive x == round_positive y.
Proof.
  intros Hx Hxy. unfold round_positive.
  rewrite (binary_exponent_comp x y Hx Hxy).
  set (u := 2 ^ (Z.max (binary_exponent y) (-1022) - 52)).
  rewrite (round_half_even_comp (x / u) (y / u)) by (rewrite Hxy; reflexivity).
  reflexivity.
Qed.

Lemma scaled_integer (z : Z) (e : Z) :
  inject_Z z * 2 ^ (e + 1) / 2 ^ (e - 52) == inject_Z (z * 2 ^ 53).
Proof.
  rewrite inject_Z_mult, pow2_inject by lia.
  assert (H : 2 ^ (e + 1) == 2 ^ 53 * 2 ^ (e - 52)).
  { rewrite <- pow2_plus. apply Qpower_comp; [reflexivity | lia]. }
  rewrite H. field. apply Qpower_not_0. discriminate.
Qed.

Lemma round_positive_upper (x : float) (e : Z) :
  0 < x -> e = Z.max (binary_exponent x) (-1022) ->
  round_positive x <= 2 ^ (e + 1).
Proof.
  intros Hx He. unfold round_positive. rewrite <- He.
  destruct (binary_exponent_spec x Hx) as [_ Hup].
  pose proof (pow2_pos (e - 52)) as Hu.
  assert (Hx2 : x <= 2 ^ (e + 1)).
  { apply Qlt_le_weak. eapply Qlt_le_trans; [exact Hup |].
    apply pow2_le. lia. }
  assert (Hr : (round_half_even (x / 2 ^ (e - 52))%Q <= 1 * 2 ^ 53)%Z).
  { apply round_half_even_le. rewrite <- scaled_integer with (e := e).
    apply Qmult_le_r; [apply Qinv_lt_0_compat; exact Hu |].
    rewrite Qmult_1_l. exact Hx2. }
  apply Qle_trans
    with (inject_Z (1 * 2 ^ 53) * 2 ^ (e - 52)).
  - apply Qmult_le_r; [exact Hu |]. rewrite <- Zle_Qle. exact Hr.
  - rewrite <- scaled_integer with (e := e). apply Qle_lteq. right.
    field. apply Qpower_not_0. discriminate.
Qed.

Lemma round_positive_lower (x : float) :
  0 < x -> (-1022 <= binary_exponent x)%Z ->
  2 ^ binary_exponent x <= round_positive x.
Proof.
  intros Hx He. unfold round_positive.
  rewrite Z.max_l by exact He.
  set (e := binary_exponent x) in *.
  destruct (binary_exponent_spec x Hx) as [Hlo _]. fold e in Hlo.
  pose proof (pow2_pos (e - 52)) as Hu.
  assert (Hs : 2 ^ e / 2 ^ (e - 52) == inject_Z (2 ^ 52)).
  { rewrite pow2_inject by lia.
    assert (H : 2 ^ e == 2 ^ 52 * 2 ^ (e - 52)).
    { rewrite <- pow2_plus. apply Qpower_comp; [reflexivity | lia]. }
    rewrite H. field. apply Qpower_not_0. discriminate. }
  assert (Hr : (2 ^ 52 <= round_half_even (x / 2 ^ (e - 52))%Q)%Z).
  { apply round_half_even_ge. rewrite <- Hs.
    apply Qmult_le_r; [apply Qinv_lt_0_compat; exact Hu | exact Hlo]. }
  apply Qle_trans with (inject_Z (2 ^ 52) * 2 ^ (e - 52)).
  - rewrite <- Hs. apply Qle_lteq. right. field.
    apply Qpower_not_0. discriminate.
  - apply Qmult_le_r; [exact Hu |]. rewrite <- Zle_Qle. exact Hr.
Qed.

Lemma round_positive_nonneg (x : float) : 0 < x -> 0 <= round_positive x.
Proof.
  intros Hx. unfold round_positive.
  set (u := 2 ^ (Z.max (binary_exponent x) (-1022) - 52)).
  assert (Hu : 0 < u) by apply pow2_pos.
  apply Qmult_le_0_compat; [| apply Qlt_le_weak; exact Hu].
  change 0 with (inject_Z 0). rewrite <- Zle_Qle.
  apply round_half_even_ge. change (inject_Z 0) with 0.
  apply Qlt_le_weak. apply Qlt_shift_div_l; [exact Hu |]. lra.
Qed.

Lemma round_positive_mono (x y : float) :
  0 < x -> x <= y -> round_positive x <= round_positive y.
Proof.
  intros Hx Hxy. assert (Hy : 0 < y) by (eapply Qlt_le_trans; eassumption).
  pose proof (binary_exponent_mono x y Hx Hxy) as Hb.
  destruct (Z.eq_dec (Z.max (binary_exponent x) (-1022))
                     (Z.max (binary_exponent y) (-1022))) as [He | Hne].
  - unfold round_positive. rewrite He.
    set (u := 2 ^ (Z.max (binary_exponent y) (-1022) - 52)).
    assert (Hu : 0 < u) by apply pow2_pos.
    apply Qmult_le_r; [exact Hu |]. rewrite <- Zle_Qle.
    apply round_half_even_mono.
    apply Qmult_le_r; [apply Qinv_lt_0_compat; exact Hu | exact Hxy].
  - assert (Hy2 : (-1022 <= binary_exponent y)%Z) by lia.
    apply Qle_trans with (2 ^ (Z.max (binary_exponent x) (-1022) + 1)).
    + apply round_positive_upper; [exact Hx | reflexivity].
    + apply Qle_trans with (2 ^ binary_exponent y).
      * apply pow2_le. lia.
      * apply round_positive_lower; assumption.
Qed.

(** A rational [z / 2^k] with fewer than 53 bits in [z] is a double. *)
Lemma round_positive_dyadic (z k : Z) :
  (0 < z < 2 ^ 53)%Z -> (0 <= k <= 1074)%Z ->
  round_positive (inject_Z z / 2 ^ k) == inject_Z z / 2 ^ k.
Proof.
  intros Hz Hk.
  set (x := inject_Z z / 2 ^ k).
  pose proof (pow2_pos k) as Hpk.
  assert (Hx : 0 < x).
  { apply Qlt_shift_div_l; [exact Hpk |]. rewrite Qmult_0_l.
    change 0 with (inject_Z 0). rewrite <- Zlt_Qlt. lia. }
  destruct (binary_exponent_spec x Hx) as [Hlo _].
  assert (Hbk : (binary_exponent x + k < 53)%Z).
  { apply pow2_lt_inv. rewrite pow2_plus.
    apply Qle_lt_trans with (x * 2 ^ k).
    - apply Qmult_le_r; [exact Hpk | exact Hlo].
    - unfold x.
      setoid_replace (inject_Z z / 2 ^ k * 2 ^ k) with (inject_Z z)
        by (field; apply Qpower_not_0; discriminate).
      rewrite <- (pow2_inject 53) by lia. rewrite <- Zlt_Qlt. lia. }
  unfold round_positive.
  set (e := Z.max (binary_exponent x) (-1022)).
  assert (Hn : (0 <= 52 - e - k)%Z) by lia.
  assert (Hs : x / 2 ^ (e - 52) == inject_Z (z * 2 ^ (52 - e - k))).
  { rewrite inject_Z_mult, pow2_inject by exact Hn.
    assert (H : 2 ^ (52 - e - k) * 2 ^ (e - 52) * 2 ^ k == 1).
    { rewrite <- !pow2_plus.
      replace (52 - e - k + (e - 52) + k)%Z with 0%Z by lia. reflexivity. }
    pose proof (pow2_pos (e - 52)) as Hu.
    pose proof (pow2_pos (52 - e - k)) as Hv.
    unfold x.
    apply (Qmult_inj_r _ _ (2 ^ (e - 52) * 2 ^ k)).
    - intros H0. pose proof (Qmult_lt_0_compat _ _ Hu Hpk) as Hp.
      rewrite H0 in Hp. discriminate.
    - setoid_replace (inject_Z z / 2 ^ k / 2 ^ (e - 52) * (2 ^ (e - 52) * 2 ^ k))
        with (inject_Z z)
        by (field; split; apply Qpower_not_0; discriminate).
      setoid_replace (inject_Z z * 2 ^ (52 - e - k) * (2 ^ (e - 52) * 2 ^ k))
        with (inject_Z z * (2 ^ (52 - e - k) * 2 ^ (e - 52) * 2 ^ k)) by ring.
      rewrite H. ring. }
  rewrite (round_half_even_comp _ _ Hs), round_half_even_inject, <- Hs.
  field. apply Qpower_not_0. discriminate.
Qed.

(** Rounding to the nearest double respects equality of rationals, is
    monotone, and fixes the doubles. *)
Lemma round_double_comp (x y : float) : x == y -> round_double x == round_double y.
Proof.
  intros H. unfold round_double.
  rewrite (Qcompare_comp x y H 0 0 (Qeq_refl 0)).
  destruct (Qcompare_spec y 0) as [H0 | H0 | H0].
  - reflexivity.
  - apply Qopp_comp. apply round_positive_comp; [| rewrite H; reflexivity].
    rewrite H. lra.
  - apply round_positive_comp; [rewrite H |]; assumption.
Qed.

Lemma round_double_mono (x y : float) : x <= y -> round_double x <= round_double y.
Proof.
  intros H. unfold round_double.
  destruct (Qcompare_spec x 0) as [Hx | Hx | Hx];
    destruct (Qcompare_spec y 0) as [Hy | Hy | Hy]; try (exfalso; lra).
  - lra.
  - apply round_positive_nonneg. exact Hy.
  - pose proof (round_positive_nonneg (- x)). lra.
  - assert (Hm : round_positive (- y) <= round_positive (- x)).
    { apply round_positive_mono; lra. }
    lra.
  - pose proof (round_positive_nonneg (- x)).
    pose proof (round_positive_nonneg y Hy). lra.
  - apply round_positive_mono; assumption.
Qed.

Lemma round_double_dyadic (z k : Z) :
  (Z.abs z < 2 ^ 53)%Z -> (0 <= k <= 1074)%Z ->
  round_double (inject_Z z / 2 ^ k) == inject_Z z / 2 ^ k.
Proof.
  intros Hz Hk. pose proof (pow2_pos k) as Hpk.
  unfold round_double.
  destruct (Qcompare_spec (inject_Z z / 2 ^ k) 0) as [H0 | H0 | H0].
  - symmetry. exact H0.
  - assert (Hneg : (z < 0)%Z).
    { apply Z.nle_gt. intros Hge. apply (Qlt_not_le _ _ H0).
      apply Qle_shift_div_l; [exact Hpk |]. rewrite Qmult_0_l.
      change 0 with (inject_Z 0). rewrite <- Zle_Qle. exact Hge. }
    assert (He : - (inject_Z z / 2 ^ k) == inject_Z (- z) / 2 ^ k).
    { rewrite inject_Z_opp. field. apply Qpower_not_0. discriminate. }
    assert (Hp : 0 < - (inject_Z z / 2 ^ k)) by lra.
    rewrite (round_positive_comp _ _ Hp He).
    rewrite round_positive_dyadic by lia.
    rewrite inject_Z_opp. field. apply Qpower_not_0. discriminate.
  - assert (Hpos : (0 < z)%Z).
    { apply Z.nle_gt. intros Hle. apply (Qlt_not_le _ _ H0).
      apply Qle_shift_div_r; [exact Hpk |]. rewrite Qmult_0_l.
      change 0 with (inject_Z 0). rewrite <- Zle_Qle. exact Hle. }
    apply round_positive_dyadic; lia.
Qed.

Lemma round_double_integer (z : Z) :
  (Z.abs z < 2 ^ 53)%Z -> round_double (inject_Z z) == inject_Z z.
Proof.
  intros Hz.
  assert (H : inject_Z z == inject_Z z / 2 ^ 0).
  { change (2 ^ 0) with 1. field. }
  rewrite (round_double_comp _ _ H) at 1.
  rewrite round_double_dyadic by lia. symmetry. exact H.
Qed.

(** ** The right-hand side *)

Lemma Qltb_dec_agree (a b : float) (A : Type) (x y : A) :
  (if Qltb a b then x else y) = (if Qlt_le_dec a b then x else y).
Proof.
  destruct (Qlt_le_dec a b) as [Hlt | Hle].
  - apply Qltb_lt in Hlt. now rewrite Hlt.
  - apply Qltb_ge in Hle. now rewrite Hle.
Qed.

(** C1. For every state vector, parameter set and value of the active flag,
    [tgi_model] returns exactly the derivatives of the reference definition
    of the specification: the three PK equations, the clock derivative, the
    kill coefficient gated by the flag, and the three tumour regimes. *)
Theorem tgi_model_refines_reference :
  forall (exp : float -> float) (p : Params) (t : float) (y : State)
         (dose_active : bool),
    tgi_model exp p t y dose_active = reference_rhs exp p y dose_active.
Proof.
  intros exp p t y dose_active.
  unfold tgi_model, reference_rhs. f_equal.
  unfold ref_d_tumor, kill_coefficient, ref_K, ref_exposure.
  now rewrite !Qltb_dec_agree.
Qed.

(** C7. With [kkill = 0], a positive growth rate and a tumour size in the
    normal regime [0.08 <= TS <= 1e12], the tumour derivative is
    [kge * TS] and it is strictly positive, whatever the active flag. *)
Theorem no_kill_tumor_grows :
  forall (exp : float -> float) (p : Params) (t : float) (y : State)
         (dose_active : bool),
    kkill p == 0 -> 0 < kge p -> 0.08 <= TS y -> TS y <= 1e12 ->
    dTS (tgi_model exp p t y dose_active) == kge p * TS y /\
    0 < dTS (tgi_model exp p t y dose_active).
Proof.
  intros exp p t y dose_active Hkill Hkge Hlo Hhi.
  assert (HK : kill_coefficient exp p y dose_active == 0).
  { unfold kill_coefficient. destruct dose_active; [| reflexivity].
    rewrite Hkill. ring. }
  assert (Hd : dTS (tgi_model exp p t y dose_active) == kge p * TS y).
  { unfold tgi_model; cbn [dTS].
    apply Qltb_ge in Hhi. apply Qltb_ge in Hlo. rewrite Hhi, Hlo.
    rewrite HK. ring. }
  split; [exact Hd |].
  rewrite Hd. apply Qmult_lt_0_compat; lra.
Qed.

(** The statement at the parameters of the scripts with the kill
    rate set to zero, at the initial tumour size. *)
Lemma no_kill_tumor_grows_witness :
  dTS (tgi_model exp_taylor
         {| ka := 3.024; CL := 818.4; V1 := 2700; V2 := 774; Q := 16.512;
            kge := 0.001; kkill := 0; lambda_res := 0.002 |}
         0 (mkState 0 0 0 10 0) true) == 0.001 * 10 /\
  0 < dTS (tgi_model exp_taylor
         {| ka := 3.024; CL := 818.4; V1 := 2700; V2 := 774; Q := 16.512;
            kge := 0.001; kkill := 0; lambda_res := 0.002 |}
         0 (mkState 0 0 0 10 0) true).
Proof.
  apply (no_kill_tumor_grows exp_taylor
           {| ka := 3.024; CL := 818.4; V1 := 2700; V2 := 774; Q := 16.512;
              kge := 0.001; kkill := 0; lambda_res := 0.002 |}
           0 (mkState 0 0 0 10 0) true); cbn; lra.
Defined.

(** ** [np.arange] *)

Lemma map_seq_sorted (f : nat -> float) :
  (forall i j : nat, (i < j)%nat -> f i < f j) ->
  forall len start : nat, StronglySorted Qlt (map f (seq start len)).
Proof.
  intros Hf. induction len as [| len IH]; intro start; cbn.
  - constructor.
  - constructor; [apply IH |].
    apply Forall_forall. intros x Hx.
    apply in_map_iff in Hx. destruct Hx as [j [<- Hj]].
    apply in_seq in Hj. apply Hf. lia.
Qed.

Lemma arange_length (start stop step : float) :
  length (arange start stop step) = arange_len start stop step.
Proof. unfold arange. now rewrite length_map, length_seq. Qed.

Lemma arange_first (start stop step t0 : float) :
  nth_error (arange start stop step) 0 = Some t0 -> t0 == start.
Proof.
  unfold arange. destruct (arange_len start stop step); cbn; [discriminate |].
  intro H. injection H as <-. ring.
Qed.

Lemma arange_sorted (start stop step : float) :
  0 < step -> StronglySorted Qlt (arange start stop step).
Proof.
  intro Hstep. unfold arange. apply map_seq_sorted. intros i j Hij.
  assert (H : inject_Z (Z.of_nat i) < inject_Z (Z.of_nat j)).
  { rewrite <- Zlt_Qlt. lia. }
  nra.
Qed.

(** Every index below the length is below the real quotient. *)
Lemma arange_index_below (start stop step : float) (i : nat) :
  (i < arange_len start stop step)%nat ->
  inject_Z (Z.of_nat i) < (stop - start) / step.
Proof.
  unfold arange_len. intro Hi.
  apply Qle_lt_trans with (inject_Z (Qceiling ((stop - start) / step) - 1)).
  - rewrite <- Zle_Qle. lia.
  - apply Qceiling_lt.
Qed.

(** The grid of the scripts, [np.arange(0, 365 + 0.1, 0.1)]: in double
    arithmetic it has the 3651 times of the exact reading, each within
    [1e-9] of its exact value. *)
Lemma script_grid_in_doubles :
  let t_eval := arange 0 (365 + 0.1) 0.1 in
  let t_eval' :=
    np_arange 0 (round_double (365 + round_double 0.1)) (round_double 0.1) in
  length t_eval = 3651%nat /\ length t_eval' = 3651%nat /\
  forallb (fun tt => Qltb (Qabs (fst tt - snd tt)) (1 # 1000000000))
    (combine t_eval t_eval') = true.
Proof. vm_compute. repeat split. Qed.

(** ** The fixed-interval schedule *)

(** A quotient strictly above an integer [q] and at most [q + 1] has
    ceiling [q + 1]. *)
Lemma Qceiling_between (x : float) (q : Z) :
  inject_Z q < x -> x <= inject_Z (q + 1) -> Qceiling x = (q + 1)%Z.
Proof.
  intros Hlo Hhi.
  pose proof (Qle_ceiling x) as Hc1. pose proof (Qceiling_lt x) as Hc2.
  assert (H1 : (q < Qceiling x)%Z).
  { rewrite Zlt_Qlt. lra. }
  assert (H2 : (Qceiling x - 1 < q + 1)%Z).
  { rewrite Zlt_Qlt. lra. }
  lia.
Qed.



(** A double below the exact value of an operation is below its rounded
    value, and likewise above. *)
Lemma round_double_above (z k : Z) (x : float) :
  (Z.abs z < 2 ^ 53)%Z -> (0 <= k <= 1074)%Z ->
  inject_Z z / 2 ^ k <= x -> inject_Z z / 2 ^ k <= round_double x.
Proof.
  intros Hz Hk Hx. rewrite <- (round_double_dyadic z k Hz Hk).
  apply round_double_mono. exact Hx.
Qed.

Lemma round_double_below (z k : Z) (x : float) :
  (Z.abs z < 2 ^ 53)%Z -> (0 <= k <= 1074)%Z ->
  x <= inject_Z z / 2 ^ k -> round_double x <= inject_Z z / 2 ^ k.
Proof.
  intros Hz Hk Hx. rewrite <- (round_double_dyadic z k Hz Hk).
  apply round_double_mono. exact Hx.
Qed.

(** A rational equal to a number of eighths is a double. *)
Lemma round_double_eighths (z : Z) (x : float) :
  (Z.abs z < 2 ^ 53)%Z -> x == inject_Z z / 8 -> round_double x == x.
Proof.
  intros Hz Hx. rewrite (round_double_comp x (inject_Z z / 2 ^ 3)) by exact Hx.
  rewrite round_double_dyadic by lia. symmetry. exact Hx.
Qed.

(** The double written [0.1] lies between a sixteenth and an eighth. *)
Lemma tenth_bounds : 1 # 16 <= round_double 0.1 /\ round_double 0.1 <= 1 # 8.
Proof. split; vm_compute; discriminate. Qed.

(** The schedule when the duration is [a] eighths of a day and the interval
    [b] eighths, both below a million days: every operation of the
    [np.arange] is exact or rounds within the eighth that the slack of 0.1
    leaves. *)
Section Eighths.

Variables D I : float.
Variables a b : Z.
Hypothesis a_range : (0 < a < 8000000)%Z.
Hypothesis b_range : (0 < b < 8000000)%Z.
Hypothesis duration_eighths : D == inject_Z a / 8.
Hypothesis interval_eighths : I == inject_Z b / 8.

(** The bound [treatment_duration + 0.1] in doubles, and what is rounded
    from it. *)
Lemma stop_bounds (x : float) :
  D + (1 # 16) <= x -> x <= D + (1 # 8) ->
  D + (1 # 16) <= round_double x /\ round_double x <= D + (1 # 8).
Proof.
  intros Hlo Hhi.
  assert (H16 : inject_Z (2 * a + 1) / 2 ^ 4 == D + (1 # 16)).
  { rewrite duration_eighths, inject_Z_plus, inject_Z_mult.
    change (2 ^ 4) with 16. change (inject_Z 2) with 2.
    change (inject_Z 1) with 1. field. }
  assert (H8 : inject_Z (a + 1) / 2 ^ 3 == D + (1 # 8)).
  { rewrite duration_eighths, inject_Z_plus. change (2 ^ 3) with 8.
    change (inject_Z 1) with 1. field. }
  split.
  - rewrite <- H16. apply round_double_above; [lia | lia |].
    rewrite H16. exact Hlo.
  - rewrite <- H8. apply round_double_below; [lia | lia |].
    rewrite H8. exact Hhi.
Qed.

Lemma eighths_quotient :
  0 < I /\
  inject_Z (a / b) * I <= D /\
  D + (1 # 8) <= inject_Z (a / b + 1) * I /\
  I <= 1000000.
Proof.
  pose proof (Z.div_mod a b ltac:(lia)) as Hdm.
  pose proof (Z.mod_pos_bound a b ltac:(lia)) as Hr.
  set (q := (a / b)%Z) in *. set (r := (a mod b)%Z) in *.
  assert (Ha : inject_Z a == inject_Z b * inject_Z q + inject_Z r).
  { rewrite Hdm at 1. rewrite inject_Z_plus, inject_Z_mult. reflexivity. }
  assert (Hb : 1 <= inject_Z b /\ inject_Z b <= 8000000).
  { split.
    - change 1 with (inject_Z 1). rewrite <- Zle_Qle. lia.
    - change 8000000 with (inject_Z 8000000). rewrite <- Zle_Qle. lia. }
  assert (Hrq : 0 <= inject_Z r /\ inject_Z r + 1 <= inject_Z b).
  { split.
    - change 0 with (inject_Z 0). rewrite <- Zle_Qle. lia.
    - change 1 with (inject_Z 1). rewrite <- inject_Z_plus, <- Zle_Qle. lia. }
  assert (HD8 : 8 * D == inject_Z a) by (rewrite duration_eighths; field).
  assert (HI8 : 8 * I == inject_Z b) by (rewrite interval_eighths; field).
  rewrite inject_Z_plus. change (inject_Z 1) with 1.
  repeat split; nra.
Qed.

(** The number of doses. *)
Lemma dose_times_fixed_length :
  length (dose_times_fixed D I) = Z.to_nat (a / b + 1).
Proof.
  unfold dose_times_fixed, np_arange. cbv zeta.
  rewrite length_map, length_seq. unfold np_arange_len. f_equal.
  destruct eighths_quotient as [HI0 [Hq1 [Hq2 HI1]]].
  rewrite inject_Z_plus in Hq2. change (inject_Z 1) with 1 in Hq2.
  set (q := (a / b)%Z) in *.
  assert (Hq0 : (0 <= q)%Z) by (apply Z.div_pos; lia).
  assert (Hqa : (q <= a)%Z).
  { pose proof (Z.mul_div_le a b ltac:(lia)). fold q in H. nia. }
  assert (Hqq : 0 <= inject_Z q).
  { change 0 with (inject_Z 0). rewrite <- Zle_Qle. exact Hq0. }
  destruct tenth_bounds as [Ht1 Ht2].
  destruct (stop_bounds (D + round_double 0.1) ltac:(lra) ltac:(lra))
    as [Hs1 Hs2].
  set (stop := round_double (D + round_double 0.1)) in *.
  destruct (stop_bounds (stop - 0) ltac:(lra) ltac:(lra)) as [Hw1 Hw2].
  set (w := round_double (stop - 0)) in *.
  assert (Hfrac : inject_Z (q * 2 ^ 24 + 1) / 2 ^ 24
                  == inject_Z q + (1 # 16777216)).
  { rewrite inject_Z_plus, inject_Z_mult.
    change (inject_Z (2 ^ 24)) with 16777216.
    change (2 ^ 24) with 16777216. change (inject_Z 1) with 1. field. }
  apply Qceiling_between.
  - apply Qlt_le_trans with (inject_Z (q * 2 ^ 24 + 1) / 2 ^ 24).
    + rewrite Hfrac. lra.
    + apply round_double_above; [lia | lia |].
      rewrite Hfrac. apply Qle_shift_div_l; [exact HI0 |]. nra.
  - assert (Hq1' : inject_Z (q + 1) == inject_Z (q + 1) / 2 ^ 0).
    { change (2 ^ 0) with 1. field. }
    rewrite Hq1'. apply round_double_below; [lia | lia |].
    rewrite <- Hq1', inject_Z_plus. change (inject_Z 1) with 1.
    apply Qle_shift_div_r; [exact HI0 |]. nra.
Qed.

(** The dose times: the multiples of the interval. *)
Lemma dose_times_fixed_nth (k : nat) (t : float) :
  nth_error (dose_times_fixed D I) k = Some t ->
  (Z.of_nat k <= a / b)%Z /\ t == inject_Z (Z.of_nat k) * I.
Proof.
  intros Hk.
  assert (Hlt : (k < Z.to_nat (a / b + 1))%nat).
  { rewrite <- dose_times_fixed_length. apply nth_error_Some. congruence. }
  assert (Hq0 : (0 <= a / b)%Z) by (apply Z.div_pos; lia).
  assert (Hka : (Z.of_nat k * b <= a)%Z).
  { pose proof (Z.mul_div_le a b ltac:(lia)). nia. }
  split; [lia |].
  unfold dose_times_fixed, np_arange in Hk. cbv zeta in Hk.
  rewrite nth_error_map, nth_error_seq in Hk.
  destruct (k <? np_arange_len _ _ _)%nat; [| discriminate Hk].
  cbn [option_map Nat.add] in Hk. injection Hk as <-.
  assert (Hmult : forall i : nat,
             (Z.of_nat i * b < 8000000)%Z ->
             forall x, x == inject_Z (Z.of_nat i) * I -> round_double x == x).
  { intros i Hi x Hx. apply (round_double_eighths (Z.of_nat i * b)); [lia |].
    rewrite Hx, interval_eighths, inject_Z_mult. field. }
  assert (Hone : forall x, x == I -> x == inject_Z (Z.of_nat 1) * I).
  { intros x Hx. change (inject_Z (Z.of_nat 1)) with 1. lra. }
  assert (Enext : 0 + I == I) by lra.
  assert (Hnext : round_double (0 + I) == I).
  { apply Qeq_trans with (0 + I); [| exact Enext].
    apply (Hmult 1%nat ltac:(lia)). apply Hone. exact Enext. }
  assert (Edelta : round_double (0 + I) - round_double 0 == I)
    by (change (round_double 0) with 0; lra).
  assert (Hdelta : round_double (round_double (0 + I) - round_double 0) == I).
  { apply Qeq_trans with (round_double (0 + I) - round_double 0);
      [| exact Edelta].
    apply (Hmult 1%nat ltac:(lia)). apply Hone. exact Edelta. }
  destruct k as [| [| k]].
  - change (round_double 0) with 0. change (inject_Z (Z.of_nat 0)) with 0.
    lra.
  - apply Hone. exact Hnext.
  - set (i := S (S k)) in *.
    set (delta := round_double (round_double (0 + I) - round_double 0)) in *.
    assert (Ein : inject_Z (Z.of_nat i) * delta == inject_Z (Z.of_nat i) * I)
      by (rewrite Hdelta; reflexivity).
    assert (Hin : round_double (inject_Z (Z.of_nat i) * delta)
                  == inject_Z (Z.of_nat i) * I).
    { apply Qeq_trans with (inject_Z (Z.of_nat i) * delta); [| exact Ein].
      apply (Hmult i ltac:(lia)). exact Ein. }
    assert (Eout : round_double 0 +
                   round_double (inject_Z (Z.of_nat i) * delta)
                   == inject_Z (Z.of_nat i) * I)
      by (rewrite Hin; change (round_double 0) with 0; ring).
    apply Qeq_trans
      with (round_double 0 + round_double (inject_Z (Z.of_nat i) * delta));
      [| exact Eout].
    apply (Hmult i ltac:(lia)). exact Eout.
Qed.

End Eighths.


(** The rounding of the quotient can add a dose as well: with the doubles
    written [0.2] and [0.1] the sum [0.2 + 0.1] and its quotient by [0.1]
    round up, and the schedule has four dose times where the exact quotient
    gives three. *)
Lemma fixed_schedule_rounds_up :
  length (dose_times_fixed (round_double 0.2) (round_double 0.1)) = 4%nat /\
  Qceiling ((round_double 0.2 + round_double 0.1) / round_double 0.1) = 3%Z.
Proof. split; vm_compute; reflexivity. Qed.



(** ** The cyclic schedule *)

(** The [for d in range(28)] loop appends the days of the block that lie
    before the end of treatment. *)
Lemma on_block_filter (D t : Z) (acc : list Z) :
  on_block D t acc =
  acc ++ filter (fun x => (x <? D)%Z)
           (map (fun d => (t + Z.of_nat d)%Z) (seq 0 28)).
Proof.
  unfold on_block. generalize (seq 0 28) as ds. intro ds. revert acc.
  induction ds as [| d ds IH]; intro acc; cbn [map fold_left filter].
  - now rewrite app_nil_r.
  - rewrite IH. destruct (t + Z.of_nat d <? D)%Z; [| reflexivity].
    now rewrite <- app_assoc.
Qed.

Lemma on_block_In (D t x : Z) (acc : list Z) :
  In x (on_block D t acc) <->
  In x acc \/ (t <= x < t + 28 /\ x < D)%Z.
Proof.
  rewrite on_block_filter, in_app_iff, filter_In, in_map_iff.
  split; intros [H | H]; try (left; exact H); right.
  - destruct H as [[d [<- Hd]] Hlt]. apply in_seq in Hd.
    apply Z.ltb_lt in Hlt. lia.
  - destruct H as [Hx HD]. split; [| apply Z.ltb_lt; exact HD].
    exists (Z.to_nat (x - t)). split; [lia |]. apply in_seq. lia.
Qed.

Lemma filter_sorted (f : Z -> bool) (l : list Z) :
  StronglySorted Z.lt l -> StronglySorted Z.lt (filter f l).
Proof.
  induction 1 as [| a l Hs IH Ha]; cbn; [constructor |].
  destruct (f a); [| exact IH].
  constructor; [exact IH |].
  apply Forall_forall. intros x Hx. apply filter_In in Hx.
  apply (proj1 (Forall_forall _ _) Ha). tauto.
Qed.

Lemma app_sorted (l1 l2 : list Z) :
  StronglySorted Z.lt l1 -> StronglySorted Z.lt l2 ->
  (forall a b, In a l1 -> In b l2 -> (a < b)%Z) ->
  StronglySorted Z.lt (l1 ++ l2).
Proof.
  induction 1 as [| a l1 Hs IH Ha]; intros H2 Hcross; cbn; [exact H2 |].
  constructor.
  - apply IH; [exact H2 |]. intros x b Hx Hb. apply Hcross; [now right | exact Hb].
  - apply Forall_forall. intros x Hx. apply in_app_iff in Hx.
    destruct Hx as [Hx | Hx].
    + apply (proj1 (Forall_forall _ _) Ha). exact Hx.
    + apply Hcross; [now left | exact Hx].
Qed.

Lemma block_sorted (t : Z) (len start : nat) :
  StronglySorted Z.lt (map (fun d => (t + Z.of_nat d)%Z) (seq start len)).
Proof.
  revert start. induction len as [| len IH]; intro start; cbn; constructor.
  - apply IH.
  - apply Forall_forall. intros x Hx. apply in_map_iff in Hx.
    destruct Hx as [j [<- Hj]]. apply in_seq in Hj. lia.
Qed.

(** The invariant of the [while] loop: with enough fuel it ends, and it
    keeps the schedule sorted, before the end of treatment and inside the
    ON part of a 42-day cycle. *)
Lemma while_on_off_invariant (D : Z) :
  forall (fuel : nat) (t : Z) (acc : list Z),
    (D - t <= Z.of_nat fuel)%Z ->
    (0 <= t)%Z -> (t mod 42 = 0)%Z ->
    StronglySorted Z.lt acc ->
    Forall (fun x => (0 <= x < D /\ x < t /\ x mod 42 < 28)%Z) acc ->
    exists l,
      while_on_off fuel D t acc = Some l /\
      StronglySorted Z.lt l /\
      Forall (fun x => (0 <= x < D /\ x mod 42 < 28)%Z) l.
Proof.
  induction fuel as [| fuel IH]; intros t acc Hfuel Ht Hmod Hs Hacc;
    cbn [while_on_off]; destruct (Z.ltb_spec t D) as [Hlt | Hge].
  - lia.
  - exists acc. split; [reflexivity |]. split; [exact Hs |].
    eapply Forall_impl; [| exact Hacc]. cbv beta. tauto.
  - apply IH.
    + lia.
    + lia.
    + rewrite <- Hmod. replace (t + 42)%Z with (t + 1 * 42)%Z by lia.
      apply Z.mod_add. lia.
    + rewrite on_block_filter. apply app_sorted.
      * exact Hs.
      * apply filter_sorted, block_sorted.
      * intros a b Ha Hb. apply filter_In in Hb. destruct Hb as [Hb _].
        apply in_map_iff in Hb. destruct Hb as [d [<- _]].
        pose proof (proj1 (Forall_forall _ _) Hacc a Ha) as Hlt'.
        cbv beta in Hlt'. lia.
    + apply Forall_forall. intros x Hx.
      apply (proj1 (on_block_In D t x acc)) in Hx.
      destruct Hx as [Hx | Hx].
      * pose proof (proj1 (Forall_forall _ _) Hacc x Hx) as Hx'.
        cbv beta in Hx'. lia.
      * assert (Hxm : (x mod 42 = x - t)%Z).
        { replace x with ((x - t) + (t / 42) * 42)%Z at 1.
          - rewrite Z.mod_add by lia. apply Z.mod_small. lia.
          - pose proof (Z.div_mod t 42). lia. }
        lia.
  - exists acc. split; [reflexivity |]. split; [exact Hs |].
    eapply Forall_impl; [| exact Hacc]. cbv beta. tauto.
Qed.

(** For every treatment duration the generator returns a schedule, which is
    strictly increasing, lies in [[0, D)] and has no day in an OFF gap. *)
Lemma dose_times_cyclic_total (D : Z) :
  exists l,
    dose_times_cyclic D = Some l /\
    StronglySorted Z.lt l /\
    Forall (fun x => (0 <= x < D /\ x mod 42 < 28)%Z) l.
Proof.
  unfold dose_times_cyclic. apply while_on_off_invariant.
  - lia.
  - lia.
  - reflexivity.
  - constructor.
  - constructor.
Qed.

(** C3. With the 28-day ON block, the 42-day cycle and a treatment duration
    of 84 the schedule is exactly the 56 days [0..27] and [42..69]: strictly
    increasing, every day before 84, no day in the OFF gaps [28..41] and
    [70..83]. *)
Theorem cyclic_schedule_84 :
  exists l,
    dose_times_cyclic 84 = Some l /\
    l = days 0 28 ++ days 42 28 /\
    length l = 56%nat /\
    StronglySorted Z.lt l /\
    Forall (fun x => (0 <= x < 84)%Z) l /\
    Forall (fun x => ~ (28 <= x < 42)%Z /\ ~ (70 <= x < 84)%Z) l.
Proof.
  destruct (dose_times_cyclic_total 84) as [l [Hl [Hs Hall]]].
  exists l. split; [exact Hl |].
  assert (Heq : l = days 0 28 ++ days 42 28).
  { vm_compute in Hl. injection Hl as <-. reflexivity. }
  split; [exact Heq |]. split; [rewrite Heq; reflexivity |].
  split; [exact Hs |].
  split.
  - eapply Forall_impl; [| exact Hall]. cbv beta. tauto.
  - apply Forall_forall. intros x Hx.
    pose proof (proj1 (Forall_forall _ _) Hall x Hx) as [Hr Hm]. cbv beta in Hr.
    split; intros Hgap.
    + rewrite Z.mod_small in Hm by lia. lia.
    + replace x with ((x - 42) + 1 * 42)%Z in Hm by lia.
      rewrite Z.mod_add, Z.mod_small in Hm by lia. lia.
Qed.

(** ** The dose bolus *)

(** C4. At a step where the dose test holds, the bolus adds exactly the
    dose to [A_gut], advances the dose cursor by one, and changes no other
    state component and no result list. *)
Theorem bolus_adds_dose_only :
  forall (dose : float) (dose_times : list float) (t : float) (l : C2.Loop),
    dose_due dose_times t (C2.dose_index l) = true ->
    let l' := C2.bolus dose dose_times t l in
    A_gut (C2.state l') = A_gut (C2.state l) + dose /\
    C2.dose_index l' = S (C2.dose_index l) /\
    Ac (C2.state l') = Ac (C2.state l) /\
    Ap (C2.state l') = Ap (C2.state l) /\
    TS (C2.state l') = TS (C2.state l) /\
    timeSinceTrtStart (C2.state l') = timeSinceTrtStart (C2.state l) /\
    C2.TS_list l' = C2.TS_list l /\
    C2.EXPOSURE_list l' = C2.EXPOSURE_list l /\
    C2.t_list l' = C2.t_list l.
Proof.
  intros dose dose_times t l Hdue l'. unfold l', C2.bolus. rewrite Hdue.
  cbn. rewrite Nat.add_1_r. repeat split; reflexivity.
Qed.

(** The first dose of [10_C2.py]: 20 units at time 0 into an empty gut. *)
Lemma bolus_adds_dose_only_witness :
  let l := C2.initial 10 in
  let l' := C2.bolus 20 (dose_times_fixed 252 2) 0 l in
  dose_due (dose_times_fixed 252 2) 0 (C2.dose_index l) = true /\
  A_gut (C2.state l') = 0 + 20 /\
  C2.dose_index l' = 1%nat.
Proof.
  intros l l'.
  assert (Hdue : dose_due (dose_times_fixed 252 2) 0 (C2.dose_index l) = true)
    by (vm_compute; reflexivity).
  split; [exact Hdue |].
  pose proof (bolus_adds_dose_only 20 (dose_times_fixed 252 2) 0 l Hdue) as H.
  split; [apply H | apply H].
Defined.

(** ** The loop of [10_C2.py] *)

Lemma firstn_split_le {A : Type} (n m : nat) (l : list A) :
  (n <= m)%nat -> firstn m l = firstn n l ++ firstn (m - n) (skipn n l).
Proof.
  intro Hnm. rewrite <- (firstn_skipn n l) at 1.
  rewrite firstn_app.
  destruct (Nat.le_gt_cases (length l) n) as [Hlen | Hlen].
  - rewrite (firstn_all2 (n := n)) by exact Hlen.
    rewrite (skipn_all2 (n := n)) by exact Hlen.
    rewrite firstn_all2 by lia. now rewrite !firstn_nil.
  - rewrite length_firstn, Nat.min_l by lia.
    rewrite firstn_all2; [reflexivity |]. rewrite length_firstn. lia.
Qed.

Lemma In_firstn {A : Type} (x : A) (n : nat) (l : list A) :
  In x (firstn n l) -> In x l.
Proof.
  intro H. rewrite <- (firstn_skipn n l). apply in_app_iff. now left.
Qed.

Lemma sorted_after {t_eval : list float} {n : nat} {t : float} :
  StronglySorted Qlt t_eval -> nth_error t_eval n = Some t ->
  Forall (fun x => t <= x) (skipn n t_eval).
Proof.
  intro Hs. revert n. induction Hs as [| a l Hs IH Ha]; intros n Hn.
  - destruct n; discriminate Hn.
  - destruct n as [| n]; cbn in Hn |- *.
    + injection Hn as <-. constructor; [lra |].
      eapply Forall_impl; [| exact Ha]. intros x Hx. cbv beta. lra.
    + apply IH. exact Hn.
Qed.

Lemma last_column_Some (sol : OdeResult) :
  sol_y sol <> [] -> exists y, last_column sol = Some y.
Proof.
  unfold last_column. intro Hne.
  destruct (rev (sol_y sol)) as [| y r] eqn:Hrev.
  - apply (f_equal (@rev State)) in Hrev. rewrite rev_involutive in Hrev.
    contradiction.
  - now exists y.
Qed.

Section C2_loop.

Variable exp : float -> float.
Variable solve_ivp : Solver.
Variable p : Params.
Variable dose : float.
Variable dose_times : list float.
Variable treatment_duration : float.
Variable dt_step : float.

Let body := C2.body exp solve_ivp p dose dose_times treatment_duration dt_step.
Let for_loop :=
  C2.for_loop exp solve_ivp p dose dose_times treatment_duration dt_step.

Lemma C2_for_loop_app (ts1 ts2 : list float) (l : C2.Loop) :
  for_loop (ts1 ++ ts2) l =
  match for_loop ts1 l with
  | Some l' => for_loop ts2 l'
  | None => None
  end.
Proof.
  revert l. induction ts1 as [| t ts1 IH]; intro l; cbn; [reflexivity |].
  fold body. destruct (body t l) as [l' |]; [apply IH | reflexivity].
Qed.

Lemma C2_bolus_clock (t : float) (l : C2.Loop) :
  timeSinceTrtStart (C2.state (C2.bolus dose dose_times t l)) =
  timeSinceTrtStart (C2.state l).
Proof.
  unfold C2.bolus. now destruct (dose_due dose_times t (C2.dose_index l)).
Qed.

(** What an iteration that does not raise has done. *)
Lemma C2_body_Some (t : float) (l l' : C2.Loop) :
  body t l = Some l' ->
  let l1 := C2.bolus dose dose_times t l in
  let sol :=
    solve_ivp
      (fun t0 y => tgi_model exp p t0 y (C2.dose_active treatment_duration t))
      (0, dt_step) (C2.state l1) [dt_step] in
  last_column sol = Some (C2.state l') /\
  C2.dose_index l' = C2.dose_index l1 /\
  C2.TS_list l' = C2.TS_list l1 ++ [TS (C2.state l')] /\
  C2.EXPOSURE_list l' = C2.EXPOSURE_list l1 ++ [Ac (C2.state l') / V1 p] /\
  C2.t_list l' = C2.t_list l1 ++ [t].
Proof.
  intros H l1 sol. subst l1 sol. unfold body, C2.body in H. cbv zeta in H.
  destruct (last_column _) as [y |]; [| discriminate H].
  injection H as <-. cbn. repeat split; reflexivity.
Qed.

Hypothesis solver_clock : keeps_constant_clock solve_ivp.

Lemma C2_body_clock_inactive (t : float) (l l' : C2.Loop) :
  C2.dose_active treatment_duration t = false ->
  body t l = Some l' ->
  timeSinceTrtStart (C2.state l') == timeSinceTrtStart (C2.state l).
Proof.
  intros Hoff Hb. apply C2_body_Some in Hb. destruct Hb as [Hcol _].
  rewrite Hoff in Hcol.
  rewrite <- (C2_bolus_clock t l).
  eapply solver_clock; [| exact Hcol].
  intros t0 y. reflexivity.
Qed.

Lemma C2_for_loop_clock_inactive (ts : list float) :
  Forall (fun t => C2.dose_active treatment_duration t = false) ts ->
  forall l l' : C2.Loop,
    for_loop ts l = Some l' ->
    timeSinceTrtStart (C2.state l') == timeSinceTrtStart (C2.state l).
Proof.
  induction 1 as [| t ts Ht Hts IH]; intros l l' Hrun; cbn in Hrun.
  - injection Hrun as <-. reflexivity.
  - fold body in Hrun. destruct (body t l) as [l1 |] eqn:Hb;
      [| discriminate Hrun].
    rewrite (IH _ _ Hrun). apply (C2_body_clock_inactive t); assumption.
Qed.

End C2_loop.

(** ** Runge-Kutta solvers meet the assumptions *)

Section RungeKutta.

Variable f : float -> State -> Deriv.
Hypothesis clock_at_rest : forall t y, dtimeSinceTrtStart (f t y) == 0.

Let at_rest (k : Deriv) : Prop := dtimeSinceTrtStart k == 0.

Lemma combine_stages_at_rest (a : list float) :
  forall ks, Forall at_rest ks -> at_rest (combine_stages a ks).
Proof.
  unfold at_rest. induction a as [| a_j a IH]; intros ks Hks; cbn;
    [reflexivity |].
  destruct Hks as [| k_j ks Hk Hks]; cbn; [reflexivity |].
  rewrite Hk, (IH ks Hks). ring.
Qed.

Lemma rk_stages_at_rest (t h : float) (y : State)
    (rows : list (float * list float)) :
  forall ks, Forall at_rest ks -> Forall at_rest (rk_stages f t h y rows ks).
Proof.
  induction rows as [| [c a] rows IH]; intros ks Hks; cbn; [exact Hks |].
  apply IH. apply Forall_app. split; [exact Hks |].
  constructor; [apply clock_at_rest | constructor].
Qed.

Lemma rk_step_clock (tb : Tableau) (t h : float) (y : State) :
  timeSinceTrtStart (rk_step tb f t h y) == timeSinceTrtStart y.
Proof.
  assert (H0 : dtimeSinceTrtStart
                 (combine_stages (weights tb)
                    (rk_stages f t h y (stages tb) [])) == 0).
  { apply combine_stages_at_rest, rk_stages_at_rest. constructor. }
  unfold rk_step, advance. cbn [timeSinceTrtStart].
  rewrite H0. ring.
Qed.

Lemma rk_steps_clock (tb : Tableau) (hs : list float) :
  forall t y, timeSinceTrtStart (rk_steps tb f t y hs) == timeSinceTrtStart y.
Proof.
  induction hs as [| h hs IH]; intros t y; cbn; [reflexivity |].
  rewrite IH. apply rk_step_clock.
Qed.

End RungeKutta.

(** Whatever the scheme and the step sizes, a Runge-Kutta solver leaves a
    clock with zero derivative where it was. *)
Lemma rk_keeps_constant_clock (tb : Tableau)
    (controller : (float -> State -> Deriv) -> float * float -> State ->
                  list float) :
  keeps_constant_clock (rk_solver tb controller).
Proof.
  intros f t_span y0 t_eval y1 Hzero Hcol.
  unfold rk_solver, last_column in Hcol. cbn in Hcol.
  injection Hcol as <-. apply rk_steps_clock. exact Hzero.
Qed.

Lemma rk_returns_a_column (tb : Tableau)
    (controller : (float -> State -> Deriv) -> float * float -> State ->
                  list float) :
  returns_a_column (rk_solver tb controller).
Proof. intros f t_span y0 t_eval. discriminate. Qed.

Lemma euler_keeps_constant_clock : keeps_constant_clock euler_solver.
Proof. apply rk_keeps_constant_clock. Qed.

Lemma euler_returns_a_column : returns_a_column euler_solver.
Proof. apply rk_returns_a_column. Qed.

Section C2_results.

Variable exp : float -> float.
Variable solve_ivp : Solver.
Variable p : Params.
Variable dose : float.
Variable dose_times : list float.
Variable treatment_duration : float.
Variable dt_step : float.

Let body := C2.body exp solve_ivp p dose dose_times treatment_duration dt_step.
Let for_loop :=
  C2.for_loop exp solve_ivp p dose dose_times treatment_duration dt_step.

(** The solve of the iteration at grid time [t] from the variables [l]. *)
Let solve (t : float) (l : C2.Loop) : OdeResult :=
  solve_ivp
    (fun t0 y => tgi_model exp p t0 y (C2.dose_active treatment_duration t))
    (0, dt_step) (C2.state (C2.bolus dose dose_times t l)) [dt_step].

(** An iteration raises exactly when the solve returned no column. *)
Lemma C2_body_None (t : float) (l : C2.Loop) :
  body t l = None <-> sol_y (solve t l) = [].
Proof.
  unfold body, C2.body, solve, last_column. cbv zeta.
  destruct (sol_y _) as [| y ys] eqn:Hy using rev_ind.
  - cbn. tauto.
  - rewrite rev_app_distr. cbn. split; [discriminate |].
    intro H. destruct ys; discriminate H.
Qed.

(** The loop raises exactly when one of its iterations does. *)
Lemma C2_for_loop_None (t_eval : list float) (l0 : C2.Loop) :
  for_loop t_eval l0 = None <->
  exists done t rest l,
    t_eval = done ++ t :: rest /\
    for_loop done l0 = Some l /\
    body t l = None.
Proof.
  revert l0. induction t_eval as [| t ts IH]; intro l0; cbn.
  - split; [discriminate |].
    intros [done [t [rest [l [Heq _]]]]]. destruct done; discriminate Heq.
  - fold body. destruct (body t l0) as [l1 |] eqn:Hb.
    + rewrite IH. split.
      * intros [done [t' [rest [l [-> [Hd Hn]]]]]].
        exists (t :: done), t', rest, l. cbn. fold body. rewrite Hb.
        repeat split; assumption.
      * intros [done [t' [rest [l [Heq [Hd Hn]]]]]].
        destruct done as [| d done]; cbn in Heq, Hd.
        -- injection Heq as <- <-. injection Hd as <-. congruence.
        -- injection Heq as <- ->. fold body in Hd. rewrite Hb in Hd.
           exists done, t', rest, l. repeat split; assumption.
    + split; [| reflexivity]. intros _.
      exists [], t, ts, l0. repeat split; assumption.
Qed.

(** The result lists grow by one entry per iteration and the labels are
    the grid times. *)
Lemma C2_for_loop_lists (t_eval : list float) :
  forall l l' : C2.Loop,
    for_loop t_eval l = Some l' ->
    C2.t_list l' = C2.t_list l ++ t_eval /\
    length (C2.TS_list l') = (length (C2.TS_list l) + length t_eval)%nat /\
    length (C2.EXPOSURE_list l') =
      (length (C2.EXPOSURE_list l) + length t_eval)%nat.
Proof.
  induction t_eval as [| t ts IH]; intros l l' Hrun; cbn in Hrun.
  - injection Hrun as <-. rewrite app_nil_r. cbn. split; [reflexivity | lia].
  - fold body in Hrun. destruct (body t l) as [l1 |] eqn:Hb;
      [| discriminate Hrun].
    destruct (IH _ _ Hrun) as [Ht [Hts Hex]].
    apply C2_body_Some in Hb. cbv zeta in Hb.
    destruct Hb as [_ [_ [Hts1 [Hex1 Ht1]]]].
    assert (Hfr : forall t0 l0,
               C2.TS_list (C2.bolus dose dose_times t0 l0) = C2.TS_list l0 /\
               C2.EXPOSURE_list (C2.bolus dose dose_times t0 l0)
                 = C2.EXPOSURE_list l0 /\
               C2.t_list (C2.bolus dose dose_times t0 l0) = C2.t_list l0).
    { intros t0 l0. unfold C2.bolus.
      now destruct (dose_due dose_times t0 (C2.dose_index l0)). }
    destruct (Hfr t l) as [F1 [F2 F3]].
    rewrite Ht, Hts, Hex, Ht1, Hts1, Hex1, F1, F2, F3, <- app_assoc.
    rewrite !length_app. cbn. split; [reflexivity | lia].
Qed.

(** Entries already in the result lists are never changed later. *)
Lemma C2_for_loop_keeps_entries (t_eval : list float) :
  forall l l' : C2.Loop,
    for_loop t_eval l = Some l' ->
    exists tss exs,
      C2.TS_list l' = C2.TS_list l ++ tss /\
      C2.EXPOSURE_list l' = C2.EXPOSURE_list l ++ exs.
Proof.
  induction t_eval as [| t ts IH]; intros l l' Hrun; cbn in Hrun.
  - injection Hrun as <-. exists [], []. now rewrite !app_nil_r.
  - fold body in Hrun. destruct (body t l) as [l1 |] eqn:Hb;
      [| discriminate Hrun].
    destruct (IH _ _ Hrun) as [tss [exs [Hts Hex]]].
    apply C2_body_Some in Hb. cbv zeta in Hb.
    destruct Hb as [_ [_ [Hts1 [Hex1 _]]]].
    assert (Hfr : C2.TS_list (C2.bolus dose dose_times t l) = C2.TS_list l /\
                  C2.EXPOSURE_list (C2.bolus dose dose_times t l)
                    = C2.EXPOSURE_list l).
    { unfold C2.bolus.
      now destruct (dose_due dose_times t (C2.dose_index l)). }
    destruct Hfr as [F1 F2].
    exists ([TS (C2.state l1)] ++ tss), ([Ac (C2.state l1) / V1 p] ++ exs).
    rewrite Hts, Hex, Hts1, Hex1, F1, F2, <- !app_assoc. split; reflexivity.
Qed.

(** With a solver that always returns a column the loop never raises. *)
Lemma C2_for_loop_total :
  returns_a_column solve_ivp ->
  forall (t_eval : list float) (l : C2.Loop),
    exists l', for_loop t_eval l = Some l'.
Proof.
  intros Hcol t_eval l.
  destruct (for_loop t_eval l) as [l' |] eqn:Hrun; [now exists l' |].
  apply C2_for_loop_None in Hrun.
  destruct Hrun as [done [t [rest [l1 [_ [_ Hn]]]]]].
  apply C2_body_None in Hn. exfalso. exact (Hcol _ _ _ _ Hn).
Qed.

End C2_results.

(** ** The treatment clock *)

(** C5. The clock derivative is 1 when the flag is set and 0 otherwise; an
    iteration whose flag [t <= treatment_duration] is false leaves
    [timeSinceTrtStart] unchanged across its window; and on an increasing
    grid, from the first such iteration on, every later state of the run
    carries the same clock; the grid of the script is increasing
    whenever the step is positive. *)
Theorem clock_stops_when_inactive :
  forall (exp : float -> float) (solve_ivp : Solver) (p : Params)
         (dose : float) (dose_times : list float)
         (treatment_duration dt_step : float),
    keeps_constant_clock solve_ivp ->
    (forall t y dose_active,
        dtimeSinceTrtStart (tgi_model exp p t y dose_active) =
        if dose_active then 1 else 0) /\
    (forall t l l',
        C2.dose_active treatment_duration t = false ->
        C2.body exp solve_ivp p dose dose_times treatment_duration dt_step t l
          = Some l' ->
        timeSinceTrtStart (C2.state l') == timeSinceTrtStart (C2.state l)) /\
    (forall t_eval l0 n m t ln lm,
        StronglySorted Qlt t_eval ->
        (n <= m)%nat ->
        nth_error t_eval n = Some t ->
        C2.dose_active treatment_duration t = false ->
        C2.for_loop exp solve_ivp p dose dose_times treatment_duration dt_step
          (firstn n t_eval) l0 = Some ln ->
        C2.for_loop exp solve_ivp p dose dose_times treatment_duration dt_step
          (firstn m t_eval) l0 = Some lm ->
        timeSinceTrtStart (C2.state lm) == timeSinceTrtStart (C2.state ln)) /\
    (forall sim_duration,
        0 < dt_step ->
        StronglySorted Qlt (arange 0 (sim_duration + dt_step) dt_step)).
Proof.
  intros exp solve_ivp p dose dose_times D dt Hsolver.
  split; [reflexivity |]. split; [| split].
  3: { intros sim Hdt. apply arange_sorted. exact Hdt. }
  - intros t l l'. apply C2_body_clock_inactive. exact Hsolver.
  - intros t_eval l0 n m t ln lm Hsorted Hnm Hn Hoff Hln Hlm.
    rewrite (firstn_split_le n m t_eval Hnm), C2_for_loop_app, Hln in Hlm.
    refine (C2_for_loop_clock_inactive exp solve_ivp p dose dose_times D dt
              Hsolver _ _ ln lm Hlm).
    apply Forall_forall. intros x Hx. apply In_firstn in Hx.
    pose proof (proj1 (Forall_forall _ _) (sorted_after Hsorted Hn) x Hx) as Hle.
    cbv beta in Hle. unfold C2.dose_active in *.
    apply not_true_iff_false. rewrite Qle_bool_iff.
    apply not_true_iff_false in Hoff. rewrite Qle_bool_iff in Hoff. lra.
Qed.

(** A run past a treatment of 0.1 days, integrated with the classical
    Runge-Kutta scheme of order 4: the clock after four iterations is the
    clock after two. *)
Lemma clock_stops_when_inactive_witness :
  let rk4 := rk_solver rk4_tableau whole_window in
  let run := C2.for_loop exp_taylor rk4 script_params 20 [0] 0.1 0.1 in
  let t_eval := [0; 0.1; 0.2; 0.3] in
  exists ln lm,
    run (firstn 2 t_eval) (C2.initial 10) = Some ln /\
    run (firstn 4 t_eval) (C2.initial 10) = Some lm /\
    C2.dose_active 0.1 0.2 = false /\
    timeSinceTrtStart (C2.state lm) == timeSinceTrtStart (C2.state ln).
Proof.
  intros rk4 run t_eval.
  destruct (C2_for_loop_total exp_taylor rk4 script_params 20 [0] 0.1 0.1
              (rk_returns_a_column _ _) (firstn 2 t_eval) (C2.initial 10))
    as [ln Hn].
  destruct (C2_for_loop_total exp_taylor rk4 script_params 20 [0] 0.1 0.1
              (rk_returns_a_column _ _) (firstn 4 t_eval) (C2.initial 10))
    as [lm Hm].
  exists ln, lm. split; [exact Hn |]. split; [exact Hm |].
  split; [reflexivity |].
  refine (proj1 (proj2 (proj2 (clock_stops_when_inactive exp_taylor rk4
            script_params 20 [0] 0.1 0.1 (rk_keeps_constant_clock _ _))))
            t_eval (C2.initial 10) 2%nat 4%nat 0.2 ln lm _ _ _ _ Hn Hm).
  - unfold t_eval. repeat constructor.
  - lia.
  - reflexivity.
  - reflexivity.
Defined.

(** ** Solver failure *)

(** With a solver that returns no column the first iteration already
    raises, and nothing of the run is kept. *)
Lemma empty_solver_run_raises :
  C2.for_loop exp_taylor empty_solver script_params 20
    (dose_times_fixed 252 2) 252 0.1 [0; 0.1] (C2.initial 10) = None.
Proof. vm_compute. reflexivity. Qed.

Lemma steepness_limited_fails_without_column (limit : float) :
  fails_without_column (steepness_limited_solver limit).
Proof.
  intros f t_span y0 t_eval. unfold steepness_limited_solver.
  destruct (Qltb limit _); [reflexivity | discriminate].
Qed.

(** Two doses of 20 a step apart, a solver that gives up above a slope of
    100: the window at 0 is solved, the one at 0.1 fails. *)
Lemma second_window_fails :
  exists l : C2.Loop,
    C2.for_loop exp_taylor (steepness_limited_solver 100) script_params 20
      [0; 0.1] 252 0.1 [0] (C2.initial 10) = Some l /\
    sol_success
      (steepness_limited_solver 100
         (fun t0 y =>
            tgi_model exp_taylor script_params t0 y (C2.dose_active 252 0.1))
         (0, 0.1) (C2.state (C2.bolus 20 [0; 0.1] 0.1 l)) [0.1]) = false.
Proof.
  eexists. split.
  - vm_compute. reflexivity.
  - vm_compute. reflexivity.
Qed.

(** The same run with doses of 40 fails in the window at 0, with doses of
    20 in the window at 0.1; both runs end the same way, so that nothing
    the run leaves tells the failing time. *)
Lemma aborted_run_reports_no_time :
  let solve_ivp := steepness_limited_solver 100 in
  let run dose :=
    C2.for_loop exp_taylor solve_ivp script_params dose [0; 0.1] 252 0.1
      [0; 0.1; 0.2] (C2.initial 10) in
  let failed dose t l :=
    sol_success
      (solve_ivp
         (fun t0 y =>
            tgi_model exp_taylor script_params t0 y (C2.dose_active 252 t))
         (0, 0.1) (C2.state (C2.bolus dose [0; 0.1] t l)) [0.1]) = false in
  failed 40 0 (C2.initial 10) /\
  (exists l,
      C2.for_loop exp_taylor solve_ivp script_params 20 [0; 0.1] 252 0.1
        [0] (C2.initial 10) = Some l /\
      failed 20 0.1 l) /\
  run 40 = None /\ run 20 = None /\
  ~ failing_time_reported exp_taylor solve_ivp script_params.
Proof.
  intros solve_ivp run failed.
  assert (H40 : failed 40 0 (C2.initial 10)) by (vm_compute; reflexivity).
  pose proof second_window_fails as H20.
  assert (R40 : run 40 = None) by (vm_compute; reflexivity).
  assert (R20 : run 20 = None) by (vm_compute; reflexivity).
  split; [exact H40 |]. split; [exact H20 |].
  split; [exact R40 |]. split; [exact R20 |].
  intros [report Hreport].
  pose proof (Hreport 40 [0; 0.1] 252 0.1 [0; 0.1; 0.2] (C2.initial 10)
                [] 0 [0.1; 0.2] (C2.initial 10) eq_refl eq_refl H40) as E40.
  destruct H20 as [l [Hl Hfail]].
  pose proof (Hreport 20 [0; 0.1] 252 0.1 [0; 0.1; 0.2] (C2.initial 10)
                [0] 0.1 [0.2] l eq_refl Hl Hfail) as E20.
  fold (run 40) in E40. fold (run 20) in E20.
  rewrite R40 in E40. rewrite R20 in E20.
  rewrite E40 in E20. discriminate E20.
Qed.

(** C6 (amended). When a failed solve returns no column, as a solve that has
    not reached the end of its window does, the run aborts in the window
    whose solve fails: taking the last column raises, and no later window
    is integrated from a stale or partial state. *)
Theorem failed_solve_aborts_run :
  forall (exp : float -> float) (solve_ivp : Solver) (p : Params)
         (dose : float) (dose_times : list float)
         (treatment_duration dt_step : float) (t_eval : list float)
         (l0 : C2.Loop),
    fails_without_column solve_ivp ->
    failure_aborts_run exp solve_ivp p dose dose_times treatment_duration
      dt_step t_eval l0.
Proof.
  intros exp solve_ivp p dose dose_times D dt t_eval l0 Hfail
         done t rest l -> Hdone Hsol.
  rewrite C2_for_loop_app, Hdone. cbn [C2.for_loop].
  assert (Hb : C2.body exp solve_ivp p dose dose_times D dt t l = None).
  { apply C2_body_None. apply Hfail. exact Hsol. }
  rewrite Hb. reflexivity.
Qed.

(** The run with two doses of 20 a step apart aborts in its second
    window. *)
Lemma failed_solve_aborts_run_witness :
  C2.for_loop exp_taylor (steepness_limited_solver 100) script_params 20
    [0; 0.1] 252 0.1 [0; 0.1; 0.2] (C2.initial 10) = None.
Proof.
  destruct second_window_fails as [l [Hl Hfail]].
  apply (failed_solve_aborts_run exp_taylor (steepness_limited_solver 100)
           script_params 20 [0; 0.1] 252 0.1 [0; 0.1; 0.2] (C2.initial 10)
           (steepness_limited_fails_without_column 100)
           [0] 0.1 [0.2] l eq_refl Hl Hfail).
Defined.

(** ** What the result lists hold *)

Lemma C2_for_loop_split (exp : float -> float) (solve_ivp : Solver)
    (p : Params) (dose : float) (dose_times : list float)
    (treatment_duration dt_step : float)
    (done : list float) (t : float) (rest : list float) (l0 lf : C2.Loop) :
  C2.for_loop exp solve_ivp p dose dose_times treatment_duration dt_step
    (done ++ t :: rest) l0 = Some lf ->
  exists lk l1,
    C2.for_loop exp solve_ivp p dose dose_times treatment_duration dt_step
      done l0 = Some lk /\
    C2.body exp solve_ivp p dose dose_times treatment_duration dt_step t lk
      = Some l1 /\
    C2.for_loop exp solve_ivp p dose dose_times treatment_duration dt_step
      rest l1 = Some lf.
Proof.
  rewrite C2_for_loop_app.
  destruct (C2.for_loop _ _ _ _ _ _ _ done l0) as [lk |] eqn:Hpre;
    [| discriminate].
  cbn. destruct (C2.body _ _ _ _ _ _ _ t lk) as [l1 |] eqn:Hb; [| discriminate].
  intro H. exists lk, l1.
  split; [reflexivity |]. split; [exact Hb | exact H].
Qed.

(** C10. When every solve returns a column, the loop of [10_C2.py] over
    [t_eval] ends with three lists of the length of [t_eval]; the time list
    is [t_eval] itself, first grid time included; and the entry with label
    [t] holds [TS] and [Ac / V1] of the last column the solver returned for
    the window that starts at [t], not of the state the iteration started
    from; on the grid of the script the first label is 0. *)
Theorem results_hold_end_of_window_state :
  forall (exp : float -> float) (solve_ivp : Solver) (p : Params)
         (dose : float) (dose_times : list float)
         (treatment_duration dt_step : float)
         (t_eval : list float) (TS0 : float),
    returns_a_column solve_ivp ->
    exists lf,
      C2.for_loop exp solve_ivp p dose dose_times treatment_duration dt_step
        t_eval (C2.initial TS0) = Some lf /\
      C2.t_list lf = t_eval /\
      length (C2.TS_list lf) = length t_eval /\
      length (C2.EXPOSURE_list lf) = length t_eval /\
      length (C2.t_list lf) = length t_eval /\
      (forall stop t0,
          t_eval = arange 0 stop dt_step ->
          nth_error (C2.t_list lf) 0 = Some t0 -> t0 == 0) /\
      forall k t,
        nth_error t_eval k = Some t ->
        exists lk y,
          C2.for_loop exp solve_ivp p dose dose_times treatment_duration
            dt_step (firstn k t_eval) (C2.initial TS0) = Some lk /\
          last_column
            (solve_ivp
               (fun t0 y0 =>
                  tgi_model exp p t0 y0 (C2.dose_active treatment_duration t))
               (0, dt_step)
               (C2.state (C2.bolus dose dose_times t lk)) [dt_step]) = Some y /\
          nth_error (C2.t_list lf) k = Some t /\
          nth_error (C2.TS_list lf) k = Some (TS y) /\
          nth_error (C2.EXPOSURE_list lf) k = Some (Ac y / V1 p).
Proof.
  intros exp solve_ivp p dose dose_times D dt t_eval TS0 Hcol.
  destruct (C2_for_loop_total exp solve_ivp p dose dose_times D dt Hcol
              t_eval (C2.initial TS0)) as [lf Hrun].
  exists lf. split; [exact Hrun |].
  destruct (C2_for_loop_lists exp solve_ivp p dose dose_times D dt
              t_eval _ _ Hrun) as [Ht [Hts Hex]].
  cbn in Ht, Hts, Hex.
  split; [exact Ht |]. split; [exact Hts |]. split; [exact Hex |].
  split; [now rewrite Ht |].
  split.
  { intros stop t0 Hgrid H0. rewrite Ht, Hgrid in H0.
    apply arange_first in H0. exact H0. }
  intros k t Hk.
  pose proof (firstn_skipn_middle k t_eval Hk) as Hsplit.
  rewrite <- Hsplit in Hrun.
  apply C2_for_loop_split in Hrun. destruct Hrun as [lk [l1 [Hpre [Hb Hpost]]]].
  exists lk, (C2.state l1). split; [exact Hpre |].
  destruct (C2_for_loop_lists exp solve_ivp p dose dose_times D dt
              _ _ _ Hpre) as [_ [Hlts Hlex]].
  cbn in Hlts, Hlex.
  assert (Hklen : length (firstn k t_eval) = k).
  { apply firstn_length_le. apply Nat.lt_le_incl.
    apply nth_error_Some. congruence. }
  rewrite Hklen in Hlts, Hlex.
  apply C2_body_Some in Hb. cbv zeta in Hb.
  destruct Hb as [Hlast [_ [Hts1 [Hex1 _]]]].
  assert (Hfr : C2.TS_list (C2.bolus dose dose_times t lk) = C2.TS_list lk /\
                C2.EXPOSURE_list (C2.bolus dose dose_times t lk)
                  = C2.EXPOSURE_list lk).
  { unfold C2.bolus. now destruct (dose_due dose_times t (C2.dose_index lk)). }
  destruct Hfr as [F1 F2]. rewrite F1 in Hts1. rewrite F2 in Hex1.
  destruct (C2_for_loop_keeps_entries exp solve_ivp p dose dose_times D dt
              _ _ _ Hpost) as [tss [exs [Hfts Hfex]]].
  split; [exact Hlast |]. split; [rewrite Ht; exact Hk |].
  rewrite Hfts, Hfex, Hts1, Hex1, <- !app_assoc. cbn.
  split.
  - rewrite nth_error_app2 by lia. rewrite Hlts, Nat.sub_diag. reflexivity.
  - rewrite nth_error_app2 by lia. rewrite Hlex, Nat.sub_diag. reflexivity.
Qed.

(** The script with Euler steps over the grid of [sim_duration = 0.1]: the
    entry with label 0 holds the tumour size after the first window,
    10.001, and not the initial size 10. *)
Lemma results_hold_end_of_window_state_witness :
  exists lf,
    C2.simulate exp_taylor euler_solver script_params 10 20 252 2 0.1 0.1
      = Some lf /\
    (exists t0, nth_error (C2.t_list lf) 0 = Some t0 /\ t0 == 0) /\
    (exists ts0, nth_error (C2.TS_list lf) 0 = Some ts0 /\ ts0 == 10.001) /\
    length (C2.TS_list lf) = length (arange 0 (0.1 + 0.1) 0.1).
Proof.
  destruct (results_hold_end_of_window_state exp_taylor euler_solver
              script_params 20 (dose_times_fixed 252 2) 252 0.1
              (arange 0 (0.1 + 0.1) 0.1) 10 euler_returns_a_column)
    as [lf [Hrun [Ht [Hlen _]]]].
  exists lf. split; [exact Hrun |].
  unfold C2.simulate in *. cbv zeta.
  vm_compute in Hrun. injection Hrun as <-.
  split; [| split; [| reflexivity]];
    (eexists; split; [reflexivity | reflexivity]).
Defined.

(** ** The dose cursor *)

Section Cursor.

Variable dose_times : list float.

Lemma dose_due_spec (t : float) (k : nat) :
  dose_due dose_times t k = true <->
  (k < length dose_times)%nat /\ Qabs (t - nth k dose_times 0) < 1e-6.
Proof.
  unfold dose_due. rewrite andb_true_iff, Nat.ltb_lt, Qltb_lt. reflexivity.
Qed.

Lemma cursor_after_app (ts1 ts2 : list float) (i : nat) :
  cursor_after dose_times (ts1 ++ ts2) i =
  cursor_after dose_times ts2 (cursor_after dose_times ts1 i).
Proof. unfold cursor_after. apply fold_left_app. Qed.

Lemma next_index_ge (t : float) (i : nat) :
  (i <= next_index dose_times t i)%nat.
Proof. unfold next_index. destruct (dose_due dose_times t i); lia. Qed.

Lemma cursor_after_ge (ts : list float) :
  forall i : nat, (i <= cursor_after dose_times ts i)%nat.
Proof.
  induction ts as [| t ts IH]; intro i; cbn; [lia |].
  specialize (IH (next_index dose_times t i)).
  pose proof (next_index_ge t i). unfold cursor_after in IH. lia.
Qed.

(** A dose that no test time matches holds the cursor back for good. *)
Lemma cursor_after_stuck (k : nat) (ts : list float) :
  Forall (fun t => dose_due dose_times t k = false) ts ->
  forall i : nat, (i <= k)%nat -> (cursor_after dose_times ts i <= k)%nat.
Proof.
  induction 1 as [| t ts Ht Hts IH]; intros i Hi; cbn; [exact Hi |].
  apply IH. unfold next_index.
  destruct (dose_due dose_times t i) eqn:Hdue; [| exact Hi].
  destruct (Nat.eq_dec i k) as [-> | Hne]; [congruence | lia].
Qed.

Lemma given_at_step (tested : list float) (i0 n k : nat) :
  given_at dose_times tested i0 n k ->
  cursor_after dose_times (firstn (S n) tested) i0 = S k.
Proof.
  intros [t [Hn [Hk Hdue]]].
  assert (Hsplit : firstn (S n) tested = firstn n tested ++ [t]).
  { rewrite <- (firstn_skipn_middle n tested Hn) at 1.
    assert (Hlen : length (firstn n tested) = n).
    { apply firstn_length_le. apply Nat.lt_le_incl.
      apply nth_error_Some. congruence. }
    replace (S n) with (length (firstn n tested) + 1)%nat by lia.
    rewrite firstn_app_2. reflexivity. }
  rewrite Hsplit, cursor_after_app, Hk. cbn. unfold next_index.
  now rewrite Hdue.
Qed.

(** Doses are given in schedule order. *)
Lemma given_at_order (tested : list float) (i0 n m k k' : nat) :
  (n < m)%nat ->
  given_at dose_times tested i0 n k ->
  given_at dose_times tested i0 m k' ->
  (k < k')%nat.
Proof.
  intros Hnm Hn [t' [_ [Hk' _]]].
  apply given_at_step in Hn.
  rewrite (firstn_split_le (S n) m tested) in Hk' by lia.
  rewrite cursor_after_app, Hn in Hk'.
  pose proof (cursor_after_ge (firstn (m - S n) (skipn (S n) tested)) (S k)).
  lia.
Qed.

(** A dose is given at most once. *)
Lemma given_at_once (tested : list float) (i0 n m k : nat) :
  given_at dose_times tested i0 n k ->
  given_at dose_times tested i0 m k ->
  n = m.
Proof.
  intros Hn Hm.
  destruct (Nat.lt_trichotomy n m) as [Hlt | [Heq | Hgt]]; [| exact Heq |].
  - pose proof (given_at_order tested i0 n m k k Hlt Hn Hm). lia.
  - pose proof (given_at_order tested i0 m n k k Hgt Hm Hn). lia.
Qed.

(** Behind a dose that no test time matches, nothing is given. *)
Lemma given_at_never (tested : list float) (i0 k n k' : nat) :
  (i0 <= k)%nat ->
  Forall (fun t => dose_due dose_times t k = false) tested ->
  given_at dose_times tested i0 n k' ->
  (k' < k)%nat.
Proof.
  intros Hi0 Hnever [t [Hn [Hk' Hdue]]].
  assert (Hpre : Forall (fun t => dose_due dose_times t k = false)
                   (firstn n tested)).
  { apply Forall_forall. intros x Hx. apply In_firstn in Hx.
    exact (proj1 (Forall_forall _ _) Hnever x Hx). }
  pose proof (cursor_after_stuck k _ Hpre i0 Hi0) as Hle.
  rewrite Hk' in Hle.
  assert (Hne : k' <> k).
  { intros ->. apply nth_error_In in Hn.
    pose proof (proj1 (Forall_forall _ _) Hnever t Hn) as Hf.
    cbv beta in Hf. congruence. }
  lia.
Qed.

Lemma not_close_not_due (tested : list float) (k : nat) :
  (forall t, In t tested -> ~ Qabs (t - nth k dose_times 0) < 1e-6) ->
  Forall (fun t => dose_due dose_times t k = false) tested.
Proof.
  intro H. apply Forall_forall. intros t Ht.
  apply not_true_iff_false. rewrite dose_due_spec.
  intros [_ Hclose]. exact (H t Ht Hclose).
Qed.

End Cursor.

Section C2_cursor.

Variable exp : float -> float.
Variable solve_ivp : Solver.
Variable p : Params.
Variable dose : float.
Variable dose_times : list float.
Variable treatment_duration : float.
Variable dt_step : float.

Let for_loop :=
  C2.for_loop exp solve_ivp p dose dose_times treatment_duration dt_step.

Lemma C2_bolus_index (t : float) (l : C2.Loop) :
  C2.dose_index (C2.bolus dose dose_times t l) =
  next_index dose_times t (C2.dose_index l).
Proof.
  unfold C2.bolus, next_index.
  destruct (dose_due dose_times t (C2.dose_index l)); cbn; lia.
Qed.

(** The cursor of the loop is the cursor of the dose tests at [t_eval]. *)
Lemma C2_dose_index_cursor (t_eval : list float) :
  forall l l' : C2.Loop,
    for_loop t_eval l = Some l' ->
    C2.dose_index l' = cursor_after dose_times t_eval (C2.dose_index l).
Proof.
  induction t_eval as [| t ts IH]; intros l l' Hrun; cbn in Hrun.
  - injection Hrun as <-. reflexivity.
  - destruct (C2.body _ _ _ _ _ _ _ t l) as [l1 |] eqn:Hb;
      [| discriminate Hrun].
    rewrite (IH _ _ Hrun). apply C2_body_Some in Hb. cbv zeta in Hb.
    destruct Hb as [_ [Hidx _]]. rewrite Hidx, C2_bolus_index. reflexivity.
Qed.

Lemma C2_bolus_at_given (t_eval : list float) (l0 : C2.Loop) (n k : nat) :
  C2.bolus_at exp solve_ivp p dose dose_times treatment_duration dt_step
    t_eval l0 n k ->
  given_at dose_times t_eval (C2.dose_index l0) n k.
Proof.
  intros [t [l [Hn [Hpre [Hk Hdue]]]]]. exists t.
  split; [exact Hn |]. split; [| exact Hdue].
  rewrite <- Hk. symmetry. apply C2_dose_index_cursor. exact Hpre.
Qed.

End C2_cursor.

Section C16_cursor.

Variable exp : float -> float.
Variable solve_ivp : Solver.
Variable p : Params.
Variable dose : float.
Variable dose_times : list float.

Let body := C16.body exp solve_ivp p dose dose_times.
Let for_loop := C16.for_loop exp solve_ivp p dose dose_times.

Lemma C16_bolus_frame (l : C16.Loop) :
  C16.dose_index (C16.bolus dose dose_times l) =
    next_index dose_times (C16.t_current l) (C16.dose_index l) /\
  C16.t_current (C16.bolus dose dose_times l) = C16.t_current l.
Proof.
  unfold C16.bolus, next_index.
  destruct (dose_due dose_times (C16.t_current l) (C16.dose_index l)); cbn;
    split; try reflexivity; lia.
Qed.

Lemma C16_body_Some (t_next : float) (l l' : C16.Loop) :
  body t_next l = Some l' ->
  C16.dose_index l' =
    next_index dose_times (C16.t_current l) (C16.dose_index l) /\
  C16.t_current l' = t_next.
Proof.
  unfold body, C16.body. cbv zeta.
  destruct (last_column _) as [y |]; [| discriminate].
  intro H. injection H as <-. cbn.
  split; [apply C16_bolus_frame | reflexivity].
Qed.

Lemma C16_body_total (t_next : float) (l : C16.Loop) :
  returns_a_column solve_ivp -> exists l', body t_next l = Some l'.
Proof.
  intro Hcol. unfold body, C16.body. cbv zeta.
  destruct (last_column_Some _ (Hcol
              (fun tt yy =>
                 tgi_model exp p tt yy
                   (C16.dose_active dose_times
                      (C16.t_current (C16.bolus dose dose_times l))))
              (C16.t_current (C16.bolus dose dose_times l), t_next)
              (C16.y_current (C16.bolus dose dose_times l)) [t_next]))
    as [y Hy].
  rewrite Hy. eexists. reflexivity.
Qed.

Lemma C16_for_loop_total :
  returns_a_column solve_ivp ->
  forall (t_nexts : list float) (l : C16.Loop),
    exists l', for_loop t_nexts l = Some l'.
Proof.
  intros Hcol. induction t_nexts as [| t ts IH]; intro l; cbn.
  - now exists l.
  - fold body. destruct (C16_body_total t l Hcol) as [l1 Hb].
    rewrite Hb. apply IH.
Qed.

(** The cursor of the loop is the cursor of the dose tests at the values
    of [t_current]. *)
Lemma C16_dose_index_cursor (t_nexts : list float) :
  forall l l' : C16.Loop,
    for_loop t_nexts l = Some l' ->
    C16.dose_index l' =
    cursor_after dose_times
      (C16.test_times (C16.t_current l) t_nexts) (C16.dose_index l).
Proof.
  induction t_nexts as [| t ts IH]; intros l l' Hrun; cbn in Hrun.
  - injection Hrun as <-. reflexivity.
  - fold body in Hrun. destruct (body t l) as [l1 |] eqn:Hb;
      [| discriminate Hrun].
    apply C16_body_Some in Hb. destruct Hb as [Hidx Ht].
    rewrite (IH _ _ Hrun), Hidx, Ht. reflexivity.
Qed.

(** After [n] iterations, [t_current] is the [n]-th test time. *)
Lemma C16_test_times_prefix (t_nexts : list float) :
  forall (n : nat) (l l' : C16.Loop),
    (n < length t_nexts)%nat ->
    for_loop (firstn n t_nexts) l = Some l' ->
    nth_error (C16.test_times (C16.t_current l) t_nexts) n
      = Some (C16.t_current l') /\
    firstn n (C16.test_times (C16.t_current l) t_nexts)
      = C16.test_times (C16.t_current l) (firstn n t_nexts).
Proof.
  induction t_nexts as [| t ts IH]; intros n l l' Hn Hrun; cbn in Hn.
  - lia.
  - destruct n as [| n]; cbn in Hrun |- *.
    + injection Hrun as <-. split; reflexivity.
    + fold body in Hrun. destruct (body t l) as [l1 |] eqn:Hb;
        [| discriminate Hrun].
      apply C16_body_Some in Hb. destruct Hb as [_ Ht].
      destruct (IH n l1 l' ltac:(lia) Hrun) as [H1 H2].
      rewrite Ht in H1, H2. split; [exact H1 | now rewrite H2].
Qed.

Lemma C16_bolus_at_given (t_nexts : list float) (l0 : C16.Loop) (n k : nat) :
  C16.bolus_at exp solve_ivp p dose dose_times t_nexts l0 n k ->
  given_at dose_times (C16.test_times (C16.t_current l0) t_nexts)
    (C16.dose_index l0) n k.
Proof.
  intros [l [Hn [Hpre [Hk Hdue]]]]. exists (C16.t_current l).
  destruct (C16_test_times_prefix t_nexts n l0 l Hn Hpre) as [Hnth Hfirst].
  split; [exact Hnth |]. split; [| exact Hdue].
  rewrite Hfirst, <- Hk. symmetry. apply C16_dose_index_cursor. exact Hpre.
Qed.

End C16_cursor.

Lemma cursor_discipline_of_given (dose_times tested : list float) (i0 : nat)
    (given : nat -> nat -> Prop) :
  (forall n k, given n k -> given_at dose_times tested i0 n k) ->
  cursor_discipline dose_times tested i0 given.
Proof.
  intro Hg. unfold cursor_discipline. split; [| split; [| split]].
  - intros n k H. apply Hg in H. destruct H as [t [Hn [_ Hdue]]].
    apply dose_due_spec in Hdue. destruct Hdue as [Hlt Hclose].
    split; [exact Hlt |]. exists t. split; assumption.
  - intros n m k Hn Hm. eapply given_at_once; apply Hg; eassumption.
  - intros n m k k' Hnm Hn Hm.
    eapply given_at_order; [exact Hnm | apply Hg; eassumption ..].
  - intros k Hi0 Hnever n k' H.
    eapply given_at_never; [exact Hi0 | | apply Hg; exact H].
    apply not_close_not_due. exact Hnever.
Qed.

(** C9. In both drivers the bolus follows the cursor discipline: only the
    schedule entry under the cursor is compared with the time of the test,
    every dose is given at most once and in schedule order, and a dose that
    no test time comes within [1e-6] of is never given, nor is any later
    one; the cursor then stays at or before that dose to the end of the run,
    and the run itself ends without raising whenever every solve returns a
    column. *)
Theorem dose_cursor_discipline :
  forall (exp : float -> float) (solve_ivp : Solver) (p : Params)
         (dose : float) (dose_times : list float),
    (forall (treatment_duration dt_step : float) (t_eval : list float)
            (l0 : C2.Loop),
        cursor_discipline dose_times t_eval (C2.dose_index l0)
          (C2.bolus_at exp solve_ivp p dose dose_times treatment_duration
             dt_step t_eval l0) /\
        (forall k lf,
            (C2.dose_index l0 <= k)%nat ->
            (forall t, In t t_eval ->
                       ~ Qabs (t - nth k dose_times 0) < 1e-6) ->
            C2.for_loop exp solve_ivp p dose dose_times treatment_duration
              dt_step t_eval l0 = Some lf ->
            (C2.dose_index lf <= k)%nat) /\
        (returns_a_column solve_ivp ->
         exists lf,
           C2.for_loop exp solve_ivp p dose dose_times treatment_duration
             dt_step t_eval l0 = Some lf)) /\
    (forall (t_nexts : list float) (l0 : C16.Loop),
        let tested := C16.test_times (C16.t_current l0) t_nexts in
        cursor_discipline dose_times tested (C16.dose_index l0)
          (C16.bolus_at exp solve_ivp p dose dose_times t_nexts l0) /\
        (forall k lf,
            (C16.dose_index l0 <= k)%nat ->
            (forall t, In t tested ->
                       ~ Qabs (t - nth k dose_times 0) < 1e-6) ->
            C16.for_loop exp solve_ivp p dose dose_times t_nexts l0 = Some lf ->
            (C16.dose_index lf <= k)%nat) /\
        (returns_a_column solve_ivp ->
         exists lf,
           C16.for_loop exp solve_ivp p dose dose_times t_nexts l0 = Some lf)).
Proof.
  intros exp solve_ivp p dose dose_times. split.
  - intros D dt t_eval l0. split; [| split].
    + apply cursor_discipline_of_given. intros n k.
      apply C2_bolus_at_given.
    + intros k lf Hi0 Hnever Hrun.
      rewrite (C2_dose_index_cursor exp solve_ivp p dose dose_times D dt
                 t_eval l0 lf Hrun).
      apply cursor_after_stuck; [| exact Hi0].
      apply not_close_not_due. exact Hnever.
    + intro Hcol. apply C2_for_loop_total. exact Hcol.
  - intros t_nexts l0 tested. split; [| split].
    + apply cursor_discipline_of_given. intros n k.
      apply C16_bolus_at_given.
    + intros k lf Hi0 Hnever Hrun.
      rewrite (C16_dose_index_cursor exp solve_ivp p dose dose_times
                 t_nexts l0 lf Hrun).
      apply cursor_after_stuck; [| exact Hi0].
      apply not_close_not_due. exact Hnever.
    + intro Hcol. apply C16_for_loop_total. exact Hcol.
Qed.

(** A schedule with a dose at 0.25 on a grid of step 0.1: the dose at 0 is
    given, the dose at 0.25 never matches a grid time, and the dose at 0.5
    is not given either although 0.5 is on the grid; the run ends with the
    cursor on the second dose. *)
Lemma dose_cursor_discipline_witness :
  let dose_times := [0; 0.25; 0.5] in
  let t_eval := arange 0 0.7 0.1 in
  exists lf,
    C2.for_loop exp_taylor euler_solver script_params 20 dose_times 252 0.1
      t_eval (C2.initial 10) = Some lf /\
    (exists t, In t t_eval /\ t == 0.5) /\
    (C2.dose_index lf <= 1)%nat.
Proof.
  intros dose_times t_eval.
  destruct (dose_cursor_discipline exp_taylor euler_solver script_params 20
              dose_times) as [HC2 _].
  destruct (HC2 252 0.1 t_eval (C2.initial 10)) as [_ [Hstuck Htotal]].
  destruct (Htotal euler_returns_a_column) as [lf Hrun].
  exists lf. split; [exact Hrun |]. split.
  - exists (0 + inject_Z 5 * 0.1). split; [| reflexivity].
    vm_compute. tauto.
  - apply (Hstuck 1%nat lf); [cbn; lia | | exact Hrun].
    intros t Ht. vm_compute in Ht.
    repeat (destruct Ht as [<- | Ht]; [vm_compute; discriminate |]).
    contradiction.
Defined.

(** * Further properties of the code *)

(** ** The right-hand side: drug balance and the sign of the kill term *)

(** X1. The three drug compartments lose drug only through clearance from
    the central compartment: the derivatives of [A_gut], [Ac] and [Ap] add
    up to [-(CL/V1) * Ac], whatever the tumour size, the clock and the
    flag. *)
Theorem drug_leaves_by_clearance_only :
  forall (exp : float -> float) (p : Params) (t : float) (y : State)
         (dose_active : bool),
    let d := tgi_model exp p t y dose_active in
    dA_gut d + dAc d + dAp d == - (CL p / V1 p) * Ac y.
Proof.
  intros exp p t y dose_active d. unfold d, tgi_model. cbn. ring.
Qed.

Lemma kill_coefficient_nonneg (exp : float -> float) (p : Params) (y : State)
    (dose_active : bool) :
  (forall x, 0 <= exp x) -> 0 <= kkill p -> 0 < V1 p -> 0 <= Ac y ->
  0 <= kill_coefficient exp p y dose_active.
Proof.
  intros Hexp Hkill HV1 HAc. unfold kill_coefficient.
  destruct dose_active; [| lra].
  assert (HE : 0 <= Ac y / V1 p) by (apply Qle_shift_div_l; lra).
  apply Qmult_le_0_compat; [| apply Hexp].
  apply Qmult_le_0_compat; [| apply Hexp].
  apply Qmult_le_0_compat; assumption.
Qed.

(** X2. With a non-negative exponential, kill rate, central amount and
    tumour size and a positive central volume, the tumour derivative under
    treatment is never above the derivative without treatment, in every
    regime of the tumour size. *)
Theorem treatment_never_speeds_growth :
  forall (exp : float -> float) (p : Params) (t : float) (y : State),
    (forall x, 0 <= exp x) -> 0 <= kkill p -> 0 < V1 p ->
    0 <= Ac y -> 0 <= TS y ->
    dTS (tgi_model exp p t y true) <= dTS (tgi_model exp p t y false).
Proof.
  intros exp p t y Hexp Hkill HV1 HAc HTS.
  pose proof (kill_coefficient_nonneg exp p y true Hexp Hkill HV1 HAc) as HK.
  assert (HKTS : 0 <= kill_coefficient exp p y true * TS y)
    by (apply Qmult_le_0_compat; assumption).
  unfold tgi_model. cbn [dTS].
  change (kill_coefficient exp p y false) with 0.
  destruct (Qltb 1e12 (TS y)); [lra |].
  destruct (Qltb (TS y) 0.08); [nra | lra].
Qed.

Lemma exp_taylor_nonneg (x : float) : 0 <= exp_taylor x.
Proof.
  unfold exp_taylor.
  assert (H : 1 + x + x * x / 2 == ((x + 1) * (x + 1) + 1) / 2) by field.
  rewrite H. apply Qle_shift_div_l; [lra |].
  assert (H2 : 0 <= (x + 1) * (x + 1)).
  { destruct (Qlt_le_dec (x + 1) 0) as [Hneg | Hpos].
    - assert (Hsq : (x + 1) * (x + 1) == - (x + 1) * - (x + 1)) by ring.
      rewrite Hsq. apply Qmult_le_0_compat; lra.
    - apply Qmult_le_0_compat; exact Hpos. }
  lra.
Qed.

(** The state of [10_C2.py] with one dose absorbed into the central
    compartment. *)
Lemma treatment_never_speeds_growth_witness :
  dTS (tgi_model exp_taylor script_params 0 (mkState 0 20 0 10 0) true) <=
  dTS (tgi_model exp_taylor script_params 0 (mkState 0 20 0 10 0) false).
Proof.
  apply (treatment_never_speeds_growth exp_taylor script_params 0
           (mkState 0 20 0 10 0) exp_taylor_nonneg); cbn; lra.
Defined.

(** X3. Outside the normal regime the tumour never grows: above [1e12] the
    derivative is 0, and below [0.08] it is at most 0 under treatment and
    equal to 0 without, so a tumour that has shrunk below [0.08] stays
    there once treatment is over. *)
Theorem tumor_never_grows_outside_normal_regime :
  forall (exp : float -> float) (p : Params) (t : float) (y : State)
         (dose_active : bool),
    (forall x, 0 <= exp x) -> 0 <= kkill p -> 0 < V1 p ->
    0 <= Ac y -> 0 <= TS y ->
    (1e12 < TS y -> dTS (tgi_model exp p t y dose_active) = 0) /\
    (TS y < 0.08 ->
     dTS (tgi_model exp p t y dose_active) <= 0 /\
     dTS (tgi_model exp p t y false) == 0).
Proof.
  intros exp p t y dose_active Hexp Hkill HV1 HAc HTS.
  pose proof (kill_coefficient_nonneg exp p y dose_active Hexp Hkill HV1 HAc)
    as HK.
  assert (HKTS : 0 <= kill_coefficient exp p y dose_active * TS y)
    by (apply Qmult_le_0_compat; assumption).
  unfold tgi_model. cbn [dTS]. split.
  - intro Hhi. apply Qltb_lt in Hhi. now rewrite Hhi.
  - intro Hlo.
    assert (H12 : 0.08 <= 1e12) by (vm_compute; discriminate).
    assert (Hhi : Qltb 1e12 (TS y) = false) by (apply Qltb_ge; lra).
    apply Qltb_lt in Hlo. rewrite Hhi, Hlo.
    change (kill_coefficient exp p y false) with 0. split; [nra | ring].
Qed.

(** A tumour of size 0.05 with drug in the central compartment. *)
Lemma tumor_never_grows_outside_normal_regime_witness :
  dTS (tgi_model exp_taylor script_params 0 (mkState 0 20 0 0.05 0) true) <= 0 /\
  dTS (tgi_model exp_taylor script_params 0 (mkState 0 20 0 0.05 0) false) == 0.
Proof.
  apply (tumor_never_grows_outside_normal_regime exp_taylor script_params 0
           (mkState 0 20 0 0.05 0) true exp_taylor_nonneg); cbn; lra.
Defined.

(** ** The reporting grid, entry by entry *)

Lemma arange_index_iff (start stop step : float) (k : nat) :
  (k < arange_len start stop step)%nat <->
  inject_Z (Z.of_nat k) < (stop - start) / step.
Proof.
  split; [apply arange_index_below |].
  intro Hlt. unfold arange_len.
  pose proof (Qle_ceiling ((stop - start) / step)) as Hc.
  assert (H : (Z.of_nat k < Qceiling ((stop - start) / step))%Z).
  { rewrite Zlt_Qlt. lra. }
  lia.
Qed.

Lemma arange_nth (start stop step : float) (k : nat) :
  nth_error (arange start stop step) k =
  if (k <? arange_len start stop step)%nat
  then Some (start + inject_Z (Z.of_nat k) * step)
  else None.
Proof.
  unfold arange. rewrite nth_error_map, nth_error_seq.
  destruct (k <? arange_len start stop step)%nat; reflexivity.
Qed.

(** ** The cyclic schedule for every treatment duration *)

Lemma while_on_off_members (D : Z) :
  forall (fuel : nat) (t : Z) (acc l : list Z),
    (0 <= t)%Z -> (t mod 42 = 0)%Z ->
    while_on_off fuel D t acc = Some l ->
    forall x, In x l <-> In x acc \/ (t <= x < D /\ x mod 42 < 28)%Z.
Proof.
  induction fuel as [| fuel IH]; intros t acc l Ht Hmod Hrun x;
    cbn [while_on_off] in Hrun; destruct (Z.ltb_spec t D) as [Hlt | Hge];
    try discriminate Hrun.
  - injection Hrun as <-. split; [tauto |]. intros [H | H]; [exact H | lia].
  - assert (Hmod' : ((t + 42) mod 42 = 0)%Z).
    { rewrite <- Hmod. replace (t + 42)%Z with (t + 1 * 42)%Z by lia.
      apply Z.mod_add. lia. }
    rewrite (IH (t + 42)%Z _ l ltac:(lia) Hmod' Hrun x), on_block_In.
    assert (Hblock : (t <= x < t + 42 -> x mod 42 = x - t)%Z).
    { intro Hx. replace x with ((x - t) + (t / 42) * 42)%Z at 1.
      - rewrite Z.mod_add by lia. apply Z.mod_small. lia.
      - pose proof (Z.div_mod t 42). lia. }
    split.
    + intros [[H | H] | H]; [left; exact H | right | right; lia].
      rewrite Hblock by lia. lia.
    + intros [H | H]; [left; left; exact H |].
      destruct (Z.lt_ge_cases x (t + 42)) as [Hin | Hout].
      * left. right. rewrite Hblock in H by lia. lia.
      * right. lia.
  - injection Hrun as <-. split; [tauto |]. intros [H | H]; [exact H | lia].
Qed.

Lemma block_filter_length (D t : Z) (n : nat) :
  length (filter (fun x => (x <? D)%Z)
            (map (fun d => (t + Z.of_nat d)%Z) (seq 0 n))) =
  Z.to_nat (Z.max 0 (Z.min (Z.of_nat n) (D - t))).
Proof.
  induction n as [| n IH]; [cbn; lia |].
  rewrite seq_S, map_app, filter_app, length_app, IH. cbn [map filter Nat.add].
  destruct (Z.ltb_spec (t + Z.of_nat n) D); cbn [length]; lia.
Qed.

Lemma while_on_off_length (D : Z) :
  forall (fuel : nat) (t : Z) (acc l : list Z),
    (0 <= t)%Z -> (t mod 42 = 0)%Z ->
    while_on_off fuel D t acc = Some l ->
    (Z.of_nat (length l) + days_before t =
     Z.of_nat (length acc) + days_before (Z.max t D))%Z.
Proof.
  induction fuel as [| fuel IH]; intros t acc l Ht Hmod Hrun;
    cbn [while_on_off] in Hrun; destruct (Z.ltb_spec t D) as [Hlt | Hge];
    try discriminate Hrun.
  - injection Hrun as <-. rewrite Z.max_l by lia. reflexivity.
  - assert (Hmod' : ((t + 42) mod 42 = 0)%Z).
    { rewrite <- Hmod. replace (t + 42)%Z with (t + 1 * 42)%Z by lia.
      apply Z.mod_add. lia. }
    pose proof (IH (t + 42)%Z _ l ltac:(lia) Hmod' Hrun) as Hl.
    rewrite on_block_filter, length_app, block_filter_length in Hl.
    rewrite Z.max_r by lia. unfold days_before in *.
    destruct (Z.le_gt_cases (t + 42) D) as [Hfull | Hpart].
    + rewrite (Z.max_r (t + 42) D) in Hl by lia.
      pose proof (Z.div_mod t 42). pose proof (Z.div_mod (t + 42) 42).
      pose proof (Z.div_mod D 42).
      pose proof (Z.mod_pos_bound D 42). lia.
    + rewrite (Z.max_l (t + 42) D) in Hl by lia.
      pose proof (Z.div_mod t 42). pose proof (Z.div_mod (t + 42) 42).
      pose proof (Z.div_mod D 42).
      pose proof (Z.mod_pos_bound D 42). lia.
  - injection Hrun as <-. rewrite Z.max_l by lia. reflexivity.
Qed.

(** X6. For every treatment duration [D] the cyclic generator returns a
    strictly increasing schedule that holds exactly the days [x] with
    [0 <= x < D] in the first 28 days of a 42-day cycle; it has 28 days per
    full cycle plus at most 28 of the last, cut cycle, and it is empty when
    [D <= 0]. *)
Theorem cyclic_schedule_for_every_duration :
  forall D : Z,
    exists l,
      dose_times_cyclic D = Some l /\
      StronglySorted Z.lt l /\
      (forall x, In x l <-> (0 <= x < D /\ x mod 42 < 28)%Z) /\
      ((0 <= D)%Z -> Z.of_nat (length l) = days_before D) /\
      ((D <= 0)%Z -> l = []).
Proof.
  intro D. destruct (dose_times_cyclic_total D) as [l [Hl [Hs _]]].
  exists l. split; [exact Hl |]. split; [exact Hs |].
  unfold dose_times_cyclic in Hl.
  pose proof (while_on_off_members D _ 0%Z [] l ltac:(lia) eq_refl Hl) as Hmem.
  assert (Hiff : forall x, In x l <-> (0 <= x < D /\ x mod 42 < 28)%Z).
  { intro x. rewrite Hmem. cbn [In]. tauto. }
  split; [exact Hiff |]. split.
  - intro HD.
    pose proof (while_on_off_length D _ 0%Z [] l ltac:(lia) eq_refl Hl) as Hlen.
    rewrite Z.max_r in Hlen by lia. cbn [length] in Hlen.
    change (days_before 0) with 0%Z in Hlen. lia.
  - intro HD. destruct l as [| x l']; [reflexivity |].
    destruct (proj1 (Hiff x) (or_introl eq_refl)) as [Hx _]. lia.
Qed.

(** The schedule of [1_C17 copy.py]: 252 days of treatment are six full
    cycles, 168 administration days. *)
Lemma cyclic_schedule_for_every_duration_witness :
  exists l, dose_times_cyclic 252 = Some l /\ length l = 168%nat.
Proof.
  destruct (cyclic_schedule_for_every_duration 252)
    as [l [Hl [_ [_ [Hlen _]]]]].
  exists l. split; [exact Hl |].
  specialize (Hlen ltac:(lia)). change (days_before 252) with 168%Z in Hlen.
  lia.
Defined.

(** ** The dose cursor: bounds, exhaustion and full delivery *)

Section CursorBounds.

Variable dose_times : list float.

Lemma next_index_bound (t : float) (i : nat) :
  (i <= length dose_times)%nat ->
  (next_index dose_times t i <= length dose_times)%nat.
Proof.
  intro Hi. unfold next_index.
  destruct (dose_due dose_times t i) eqn:Hdue; [| exact Hi].
  apply dose_due_spec in Hdue. lia.
Qed.

Lemma cursor_after_bound (ts : list float) :
  forall i : nat,
    (i <= length dose_times)%nat ->
    (cursor_after dose_times ts i <= length dose_times)%nat.
Proof.
  induction ts as [| t ts IH]; intros i Hi; cbn; [exact Hi |].
  apply IH, next_index_bound, Hi.
Qed.

Lemma dose_due_exhausted (t : float) (i : nat) :
  (length dose_times <= i)%nat -> dose_due dose_times t i = false.
Proof.
  intro Hi. apply not_true_iff_false. rewrite dose_due_spec. lia.
Qed.

Lemma firstn_S_nth {A : Type} (l : list A) (j : nat) (x : A) :
  nth_error l j = Some x -> firstn (S j) l = firstn j l ++ [x].
Proof.
  intro Hj. rewrite <- (firstn_skipn_middle j l Hj) at 1.
  assert (Hlen : length (firstn j l) = j).
  { apply firstn_length_le. apply Nat.lt_le_incl.
    apply nth_error_Some. congruence. }
  replace (S j) with (length (firstn j l) + 1)%nat by lia.
  rewrite firstn_app_2. reflexivity.
Qed.

(** When the doses can be matched, in order, with test times within
    [1e-6], the cursor passes every one of them. *)
Lemma cursor_passes_matched_doses (tested : list float) (j : nat -> nat) :
  (forall k, (S k < length dose_times)%nat -> (j k < j (S k))%nat) ->
  (forall k, (k < length dose_times)%nat ->
             exists t, nth_error tested (j k) = Some t /\
                       Qabs (t - nth k dose_times 0) < 1e-6) ->
  forall k, (k < length dose_times)%nat ->
            (S k <= cursor_after dose_times (firstn (S (j k)) tested) 0)%nat.
Proof.
  intros Hinc Hmatch.
  assert (Hstep : forall k c,
             (k < length dose_times)%nat ->
             (k <= cursor_after dose_times (firstn (j k) tested) c)%nat ->
             (S k <= cursor_after dose_times (firstn (S (j k)) tested) c)%nat).
  { intros k c Hk Hc. destruct (Hmatch k Hk) as [t [Ht Hclose]].
    rewrite (firstn_S_nth tested (j k) t Ht), cursor_after_app.
    cbn. unfold next_index.
    destruct (dose_due dose_times t _) eqn:Hdue; [lia |].
    destruct (Nat.eq_dec (cursor_after dose_times (firstn (j k) tested) c) k)
      as [Heq | Hne]; [| lia].
    rewrite Heq in Hdue.
    assert (Htrue : dose_due dose_times t k = true)
      by (apply dose_due_spec; split; assumption).
    congruence. }
  induction k as [| k IH]; intro Hk.
  - apply Hstep; [exact Hk | lia].
  - apply Hstep; [exact Hk |].
    specialize (IH ltac:(lia)). pose proof (Hinc k Hk) as Hj.
    rewrite (firstn_split_le (S (j k)) (j (S k)) tested) by lia.
    rewrite cursor_after_app.
    pose proof (cursor_after_ge dose_times
                  (firstn (j (S k) - S (j k)) (skipn (S (j k)) tested))
                  (cursor_after dose_times (firstn (S (j k)) tested) 0)).
    lia.
Qed.

Lemma cursor_delivers_all (tested : list float) (j : nat -> nat) :
  (forall k, (S k < length dose_times)%nat -> (j k < j (S k))%nat) ->
  (forall k, (k < length dose_times)%nat ->
             exists t, nth_error tested (j k) = Some t /\
                       Qabs (t - nth k dose_times 0) < 1e-6) ->
  cursor_after dose_times tested 0 = length dose_times.
Proof.
  intros Hinc Hmatch.
  pose proof (cursor_after_bound tested 0 ltac:(lia)) as Hub.
  destruct (length dose_times) as [| n] eqn:Hn; [lia |].
  pose proof (cursor_passes_matched_doses tested j) as Hpass.
  rewrite Hn in Hpass. specialize (Hpass Hinc Hmatch n ltac:(lia)).
  rewrite <- (firstn_skipn (S (j n)) tested), cursor_after_app.
  rewrite <- (firstn_skipn (S (j n)) tested), cursor_after_app in Hub.
  pose proof (cursor_after_ge dose_times (skipn (S (j n)) tested)
                (cursor_after dose_times (firstn (S (j n)) tested) 0)).
  lia.
Qed.

Lemma given_at_cons (t : float) (ts : list float) (i0 n k : nat) :
  given_at dose_times ts (next_index dose_times t i0) n k ->
  given_at dose_times (t :: ts) i0 (S n) k.
Proof.
  intros [t' [Hn [Hc Hd]]]. exists t'.
  split; [exact Hn |]. split; [exact Hc | exact Hd].
Qed.

(** A cursor that ends beyond dose [k] has given dose [k] at some test. *)
Lemma cursor_crossing (k : nat) (tested : list float) :
  forall i0 : nat,
    (i0 <= k)%nat -> (k < cursor_after dose_times tested i0)%nat ->
    exists n, given_at dose_times tested i0 n k.
Proof.
  induction tested as [| t ts IH]; intros i0 Hi0 Hk; cbn in Hk; [lia |].
  destruct (Nat.eq_dec i0 k) as [-> | Hne].
  - destruct (dose_due dose_times t k) eqn:Hdue.
    + exists 0%nat, t. split; [reflexivity |].
      split; [reflexivity | exact Hdue].
    + assert (Hsame : next_index dose_times t k = k)
        by (unfold next_index; now rewrite Hdue).
      rewrite Hsame in Hk.
      destruct (IH k ltac:(lia) Hk) as [n Hn].
      exists (S n). apply given_at_cons. rewrite Hsame. exact Hn.
  - assert (Hnext : (next_index dose_times t i0 <= k)%nat).
    { unfold next_index. destruct (dose_due dose_times t i0); lia. }
    destruct (IH _ Hnext Hk) as [n Hn].
    exists (S n). apply given_at_cons. exact Hn.
Qed.

End CursorBounds.

Lemma cursor_after_at_most_one_per_test (dose_times ts : list float) :
  forall i : nat, (cursor_after dose_times ts i <= i + length ts)%nat.
Proof.
  induction ts as [| t ts IH]; intro i; cbn; [lia |].
  specialize (IH (next_index dose_times t i)). unfold cursor_after in IH.
  assert (H : (next_index dose_times t i <= S i)%nat).
  { unfold next_index. destruct (dose_due dose_times t i); lia. }
  lia.
Qed.

(** X7. In both drivers the dose cursor only moves forward, by at most one
    dose per iteration, and never leaves the schedule; once it has reached
    the end of the schedule the bolus step does nothing at all, so the loop
    goes on without reading past the last dose time. *)
Theorem dose_cursor_stays_in_schedule :
  forall (exp : float -> float) (solve_ivp : Solver) (p : Params)
         (dose : float) (dose_times : list float),
    (forall (treatment_duration dt_step : float) (t_eval : list float)
            (l0 lf : C2.Loop),
        (C2.dose_index l0 <= length dose_times)%nat ->
        C2.for_loop exp solve_ivp p dose dose_times treatment_duration dt_step
          t_eval l0 = Some lf ->
        (C2.dose_index l0 <= C2.dose_index lf)%nat /\
        (C2.dose_index lf <= length dose_times)%nat /\
        (C2.dose_index lf <= C2.dose_index l0 + length t_eval)%nat) /\
    (forall (t : float) (l : C2.Loop),
        (length dose_times <= C2.dose_index l)%nat ->
        C2.bolus dose dose_times t l = l) /\
    (forall (t_nexts : list float) (l0 lf : C16.Loop),
        (C16.dose_index l0 <= length dose_times)%nat ->
        C16.for_loop exp solve_ivp p dose dose_times t_nexts l0 = Some lf ->
        (C16.dose_index l0 <= C16.dose_index lf)%nat /\
        (C16.dose_index lf <= length dose_times)%nat /\
        (C16.dose_index lf <= C16.dose_index l0 + length t_nexts)%nat) /\
    (forall l : C16.Loop,
        (length dose_times <= C16.dose_index l)%nat ->
        C16.bolus dose dose_times l = l).
Proof.
  intros exp solve_ivp p dose dose_times. split; [| split; [| split]].
  - intros D dt t_eval l0 lf Hi0 Hrun.
    rewrite (C2_dose_index_cursor exp solve_ivp p dose dose_times D dt
               t_eval l0 lf Hrun).
    split; [apply cursor_after_ge |].
    split; [apply cursor_after_bound; exact Hi0 |].
    apply cursor_after_at_most_one_per_test.
  - intros t l Hl. unfold C2.bolus.
    now rewrite (dose_due_exhausted dose_times t _ Hl).
  - intros t_nexts l0 lf Hi0 Hrun.
    rewrite (C16_dose_index_cursor exp solve_ivp p dose dose_times
               t_nexts l0 lf Hrun).
    split; [apply cursor_after_ge |].
    split; [apply cursor_after_bound; exact Hi0 |].
    pose proof (cursor_after_at_most_one_per_test dose_times
                  (C16.test_times (C16.t_current l0) t_nexts)
                  (C16.dose_index l0)) as H.
    assert (Hlen : forall ts t0,
               length (C16.test_times t0 ts) = length ts).
    { induction ts as [| a ts IH]; intro t0; cbn; [reflexivity |].
      now rewrite IH. }
    rewrite Hlen in H. exact H.
  - intros l Hl. unfold C16.bolus.
    now rewrite (dose_due_exhausted dose_times _ _ Hl).
Qed.

(** A run of [10_C2.py] over three grid times with Euler steps and a
    schedule of one dose: the cursor ends on 1, the length of the
    schedule. *)
Lemma dose_cursor_stays_in_schedule_witness :
  exists lf,
    C2.for_loop exp_taylor euler_solver script_params 20 [0] 252 0.1
      [0; 0.1; 0.2] (C2.initial 10) = Some lf /\
    (C2.dose_index lf <= 1)%nat.
Proof.
  destruct (C2_for_loop_total exp_taylor euler_solver script_params 20 [0]
              252 0.1 euler_returns_a_column [0; 0.1; 0.2] (C2.initial 10))
    as [lf Hrun].
  exists lf. split; [exact Hrun |].
  apply (proj1 (dose_cursor_stays_in_schedule exp_taylor euler_solver
                  script_params 20 [0]) 252 0.1 [0; 0.1; 0.2]
               (C2.initial 10) lf); [cbn; lia | exact Hrun].
Defined.

Lemma C2_for_loop_prefix (exp : float -> float) (solve_ivp : Solver)
    (p : Params) (dose : float) (dose_times : list float)
    (treatment_duration dt_step : float) (t_eval : list float)
    (l0 lf : C2.Loop) (n : nat) :
  C2.for_loop exp solve_ivp p dose dose_times treatment_duration dt_step
    t_eval l0 = Some lf ->
  exists l,
    C2.for_loop exp solve_ivp p dose dose_times treatment_duration dt_step
      (firstn n t_eval) l0 = Some l /\
    C2.for_loop exp solve_ivp p dose dose_times treatment_duration dt_step
      (skipn n t_eval) l = Some lf.
Proof.
  rewrite <- (firstn_skipn n t_eval) at 1. rewrite C2_for_loop_app.
  destruct (C2.for_loop _ _ _ _ _ _ _ (firstn n t_eval) l0) as [l |];
    [| discriminate].
  intro H. exists l. split; [reflexivity | exact H].
Qed.

Lemma C2_cursor_reaches_end :
  forall (exp : float -> float) (solve_ivp : Solver) (p : Params)
         (dose : float) (dose_times : list float)
         (treatment_duration dt_step : float) (t_eval : list float)
         (l0 lf : C2.Loop) (j : nat -> nat),
    (forall k, (S k < length dose_times)%nat -> (j k < j (S k))%nat) ->
    (forall k, (k < length dose_times)%nat ->
               exists t, nth_error t_eval (j k) = Some t /\
                         Qabs (t - nth k dose_times 0) < 1e-6) ->
    C2.dose_index l0 = 0%nat ->
    C2.for_loop exp solve_ivp p dose dose_times treatment_duration dt_step
      t_eval l0 = Some lf ->
    C2.dose_index lf = length dose_times.
Proof.
  intros exp solve_ivp p dose dose_times D dt t_eval l0 lf j Hinc Hmatch
         Hi0 Hrun.
  rewrite (C2_dose_index_cursor exp solve_ivp p dose dose_times D dt
             t_eval l0 lf Hrun), Hi0.
  apply (cursor_delivers_all dose_times t_eval j Hinc Hmatch).
Qed.

(** X8. In [10_C2.py], when the doses can be matched in order with grid
    times that lie within [1e-6] of them, a run that starts with the cursor
    on the first dose gives every dose of the schedule: each one has an
    iteration at which its bolus is added, and the cursor ends at the end
    of the schedule. *)
Theorem matched_doses_are_all_given :
  forall (exp : float -> float) (solve_ivp : Solver) (p : Params)
         (dose : float) (dose_times : list float)
         (treatment_duration dt_step : float) (t_eval : list float)
         (l0 lf : C2.Loop) (j : nat -> nat),
    (forall k, (S k < length dose_times)%nat -> (j k < j (S k))%nat) ->
    (forall k, (k < length dose_times)%nat ->
               exists t, nth_error t_eval (j k) = Some t /\
                         Qabs (t - nth k dose_times 0) < 1e-6) ->
    C2.dose_index l0 = 0%nat ->
    C2.for_loop exp solve_ivp p dose dose_times treatment_duration dt_step
      t_eval l0 = Some lf ->
    C2.dose_index lf = length dose_times /\
    forall k, (k < length dose_times)%nat ->
              exists n,
                C2.bolus_at exp solve_ivp p dose dose_times treatment_duration
                  dt_step t_eval l0 n k.
Proof.
  intros exp solve_ivp p dose dose_times D dt t_eval l0 lf j Hinc Hmatch
         Hi0 Hrun.
  pose proof (C2_cursor_reaches_end exp solve_ivp p dose dose_times D dt
                t_eval l0 lf j Hinc Hmatch Hi0 Hrun) as Hend.
  split; [exact Hend |].
  intros k Hk.
  destruct (cursor_crossing dose_times k t_eval 0 ltac:(lia)) as [n Hn].
  { rewrite (cursor_delivers_all dose_times t_eval j Hinc Hmatch). exact Hk. }
  exists n. destruct Hn as [t [Hnth [Hc Hdue]]].
  destruct (C2_for_loop_prefix exp solve_ivp p dose dose_times D dt t_eval
              l0 lf n Hrun) as [l [Hpre _]].
  exists t, l. split; [exact Hnth |]. split; [exact Hpre |].
  split; [| exact Hdue].
  rewrite (C2_dose_index_cursor exp solve_ivp p dose dose_times D dt
             _ l0 l Hpre), Hi0. exact Hc.
Qed.

(** Doses at 0 and 0.2 on the grid 0, 0.1, 0.2: both are given. *)
Lemma matched_doses_are_all_given_witness :
  exists lf,
    C2.for_loop exp_taylor euler_solver script_params 20 [0; 0.2] 252 0.1
      [0; 0.1; 0.2] (C2.initial 10) = Some lf /\
    C2.dose_index lf = 2%nat.
Proof.
  destruct (C2_for_loop_total exp_taylor euler_solver script_params 20
              [0; 0.2] 252 0.1 euler_returns_a_column [0; 0.1; 0.2]
              (C2.initial 10)) as [lf Hrun].
  exists lf. split; [exact Hrun |].
  apply (matched_doses_are_all_given exp_taylor euler_solver script_params 20
           [0; 0.2] 252 0.1 [0; 0.1; 0.2] (C2.initial 10) lf
           (fun k => (2 * k)%nat)).
  - intros k Hk. lia.
  - intros k Hk. destruct k as [| [| k]]; [| | cbn in Hk; lia];
      eexists; (split; [reflexivity | vm_compute; reflexivity]).
  - reflexivity.
  - exact Hrun.
Defined.

(** X9. The whole script [10_C2.py], with an interval and a duration that
    are whole numbers of eighths of a day (in particular whole numbers of
    days), gives every dose of its schedule whenever the interval is a whole
    number of steps and the treatment ends within the horizon: any run that
    completes ends with the cursor at the end of the schedule. *)
Theorem aligned_regime_gives_every_dose :
  forall (exp : float -> float) (solve_ivp : Solver) (p : Params)
         (TS0 dose treatment_duration dose_interval sim_duration dt_step : float)
         (a b : Z) (m : nat) (lf : C2.Loop),
    (0 < a < 8000000)%Z -> (0 < b < 8000000)%Z ->
    treatment_duration == inject_Z a / 8 ->
    dose_interval == inject_Z b / 8 ->
    0 < dt_step -> (1 <= m)%nat ->
    dose_interval == inject_Z (Z.of_nat m) * dt_step ->
    treatment_duration <= sim_duration ->
    C2.simulate exp solve_ivp p TS0 dose treatment_duration dose_interval
      sim_duration dt_step = Some lf ->
    C2.dose_index lf =
    length (dose_times_fixed treatment_duration dose_interval).
Proof.
  intros exp solve_ivp p TS0 dose D I sim dt a b m lf Ha Hb HD HIe Hdt Hm HI
         Hfit Hrun.
  unfold C2.simulate in Hrun. cbv zeta in Hrun.
  pose proof (dose_times_fixed_length D I a b Ha Hb HD HIe) as Hlen.
  destruct (eighths_quotient D I a b Hb HD HIe) as [HI0 [Hq1 _]].
  set (dose_times := dose_times_fixed D I) in *.
  apply (C2_cursor_reaches_end exp solve_ivp p dose dose_times D dt
           (arange 0 (sim + dt) dt) (C2.initial TS0) lf
           (fun k => (k * m)%nat)); [| | reflexivity | exact Hrun].
  - intros k _. nia.
  - intros k Hk.
    destruct (nth_error dose_times k) as [d |] eqn:Hd;
      [| apply nth_error_None in Hd; lia].
    destruct (dose_times_fixed_nth D I a b Ha Hb HD HIe k d Hd) as [Hkq Hdv].
    assert (HkI : inject_Z (Z.of_nat k) * I <= sim).
    { apply Qle_trans with D; [| exact Hfit].
      apply Qle_trans with (inject_Z (a / b) * I); [| exact Hq1].
      apply Qmult_le_compat_r; [rewrite <- Zle_Qle; exact Hkq | lra]. }
    assert (Hkm : inject_Z (Z.of_nat (k * m)) * dt
                  == inject_Z (Z.of_nat k) * I).
    { rewrite Nat2Z.inj_mul, inject_Z_mult, HI. ring. }
    assert (Hgrid : (k * m < arange_len 0%Q (sim + dt)%Q dt)%nat).
    { apply arange_index_iff. apply Qlt_shift_div_l; [exact Hdt |]. lra. }
    exists (0 + inject_Z (Z.of_nat (k * m)) * dt). split.
    + rewrite arange_nth. apply Nat.ltb_lt in Hgrid. now rewrite Hgrid.
    + unfold float in *. rewrite (nth_error_nth _ _ 0 Hd).
      assert (Hz : 0 + inject_Z (Z.of_nat (k * m)) * dt - d == 0)
        by (rewrite Hkm, Hdv; ring).
      rewrite Hz. reflexivity.
Qed.

(** The regime of [10_C2.py] itself: 20 steps of 0.1 per interval of 2, a
    treatment of 252 days inside a horizon of 365; all 127 doses are
    given. *)
Lemma aligned_regime_gives_every_dose_witness :
  exists lf,
    C2.simulate exp_taylor euler_solver script_params 10 20 252 2 365 0.1
      = Some lf /\
    C2.dose_index lf = 127%nat.
Proof.
  destruct (C2_for_loop_total exp_taylor euler_solver script_params 20
              (dose_times_fixed 252 2) 252 0.1 euler_returns_a_column
              (arange 0 (365 + 0.1) 0.1) (C2.initial 10)) as [lf Hrun].
  exists lf. split; [exact Hrun |].
  assert (H127 : length (dose_times_fixed 252 2) = 127%nat)
    by (vm_compute; reflexivity).
  rewrite <- H127.
  apply (aligned_regime_gives_every_dose exp_taylor euler_solver script_params
           10 20 252 2 365 0.1 2016 16 20 lf);
    [lia | lia | reflexivity | reflexivity | lra | lia | reflexivity
    | vm_compute; discriminate |].
  exact Hrun.
Defined.

(** ** The cyclic script gives every scheduled day its dose *)

Lemma test_times_length (ts : list float) :
  forall t0, length (C16.test_times t0 ts) = length ts.
Proof.
  induction ts as [| a ts IH]; intro t0; cbn; [reflexivity |].
  now rewrite IH.
Qed.

Lemma test_times_first (ts : list float) (t0 : float) :
  ts <> [] -> nth_error (C16.test_times t0 ts) 0 = Some t0.
Proof. destruct ts; [contradiction | reflexivity]. Qed.

Lemma test_times_later (ts : list float) :
  forall (t0 : float) (i : nat),
    (S i < length ts)%nat ->
    nth_error (C16.test_times t0 ts) (S i) = nth_error ts i.
Proof.
  induction ts as [| a r IH]; intros t0 i Hi; cbn in Hi; [lia |].
  cbn [C16.test_times nth_error]. destruct i as [| i].
  - apply test_times_first. destruct r; [cbn in Hi; lia | discriminate].
  - apply IH. lia.
Qed.

Lemma sorted_nth_increasing (l : list Z) :
  StronglySorted Z.lt l ->
  forall k, (S k < length l)%nat -> (nth k l 0 < nth (S k) l 0)%Z.
Proof.
  induction 1 as [| a l Hs IH Ha]; intros k Hk; cbn in Hk; [lia |].
  destruct k as [| k].
  - cbn. destruct l as [| b l']; [cbn in Hk; lia |].
    exact (proj1 (Forall_forall _ _) Ha b (or_introl eq_refl)).
  - apply IH. lia.
Qed.

(** X10. The whole script [Simulations/10_C16.py], run on the schedule the
    cyclic generator returns, gives every scheduled day its dose whenever a
    day is a whole number of steps and the treatment ends within the
    horizon: any run that completes ends with the cursor at the end of the
    schedule. *)
Theorem cyclic_regime_gives_every_dose :
  forall (exp : float -> float) (solve_ivp : Solver) (p : Params)
         (TS0 dose : float) (treatment_duration : Z) (days : list Z)
         (sim_duration dt_step : float) (m : nat) (lf : C16.Loop),
    dose_times_cyclic treatment_duration = Some days ->
    0 < dt_step ->
    inject_Z (Z.of_nat m) * dt_step == 1 ->
    inject_Z treatment_duration <= sim_duration ->
    C16.simulate exp solve_ivp p TS0 dose days sim_duration dt_step
      = Some lf ->
    C16.dose_index lf = length days.
Proof.
  intros exp solve_ivp p TS0 dose D days sim dt m lf Hdays Hdt Hm Hfit Hrun.
  destruct (dose_times_cyclic_total D) as [l [Hl [Hsorted Hrange]]].
  rewrite Hdays in Hl. injection Hl as <-.
  unfold C16.simulate in Hrun. cbv zeta in Hrun.
  set (t_eval := arange 0 (sim + dt) dt) in *.
  rewrite (C16_dose_index_cursor exp solve_ivp p dose (map inject_Z days)
             (tl t_eval) (C16.initial TS0) lf Hrun).
  change (C16.t_current (C16.initial TS0)) with 0.
  change (C16.dose_index (C16.initial TS0)) with 0%nat.
  assert (Hlen : length (map inject_Z days) = length days)
    by apply length_map.
  rewrite <- Hlen.
  assert (Hm1 : (1 <= m)%nat).
  { destruct m as [| m]; [| lia].
    change (inject_Z (Z.of_nat 0)) with 0 in Hm. lra. }
  assert (Hday : forall k, (k < length days)%nat ->
                           (0 <= nth k days 0 < D)%Z).
  { intros k Hk.
    pose proof (proj1 (Forall_forall _ _) Hrange _ (nth_In days 0%Z Hk)) as H.
    cbv beta in H. lia. }
  apply (cursor_delivers_all (map inject_Z days) (C16.test_times 0 (tl t_eval))
           (fun k => (Z.to_nat (nth k days 0%Z) * m)%nat)).
  - intros k Hk0.
    assert (Hk : (S k < length days)%nat) by (rewrite <- Hlen; exact Hk0).
    pose proof (sorted_nth_increasing days Hsorted k Hk).
    pose proof (Hday k ltac:(lia)). nia.
  - intros k Hk0.
    assert (Hk : (k < length days)%nat) by (rewrite <- Hlen; exact Hk0).
    destruct (Hday k Hk) as [Hx0 HxD].
    set (x := nth k days 0%Z) in *.
    assert (Hd : nth k (map inject_Z days) 0 = inject_Z x).
    { change 0 with (inject_Z 0). apply map_nth. }
    assert (Hxsim : inject_Z x < sim).
    { apply Qlt_le_trans with (inject_Z D); [| exact Hfit].
      rewrite <- Zlt_Qlt. exact HxD. }
    assert (Hxm : inject_Z (Z.of_nat (Z.to_nat x * m)) * dt == inject_Z x).
    { rewrite Nat2Z.inj_mul, Z2Nat.id, inject_Z_mult by lia.
      rewrite <- Qmult_assoc, Hm. ring. }
    assert (Hgrid : (S (Z.to_nat x * m) < arange_len 0%Q (sim + dt)%Q dt)%nat).
    { apply arange_index_iff. apply Qlt_shift_div_l; [exact Hdt |].
      rewrite Nat2Z.inj_succ. unfold Z.succ. rewrite inject_Z_plus.
      change (inject_Z 1) with 1. lra. }
    assert (Htl : length (tl t_eval) = (arange_len 0%Q (sim + dt)%Q dt - 1)%nat).
    { unfold t_eval. rewrite <- arange_length.
      destruct (arange 0 (sim + dt) dt); cbn; lia. }
    destruct (Z.to_nat x * m)%nat as [| i] eqn:Hidx.
    + exists 0. split.
      * apply test_times_first. intro Hnil. rewrite Hnil in Htl. cbn in Htl.
        lia.
      * assert (Hx : inject_Z x == 0).
        { rewrite <- Hxm. change (inject_Z (Z.of_nat 0)) with 0. ring. }
        assert (Hz : 0 - inject_Z x == 0) by (rewrite Hx; ring).
        unfold float. rewrite Hd, Hz. reflexivity.
    + exists (0 + inject_Z (Z.of_nat (S i)) * dt). split.
      * rewrite test_times_later by lia.
        assert (Hnth : forall (l0 : list float) n,
                   nth_error (tl l0) n = nth_error l0 (S n)).
        { intros l0 n. destruct l0; [now destruct n | reflexivity]. }
        rewrite Hnth. unfold t_eval. rewrite arange_nth.
        assert (Hlt : (S i <? arange_len 0%Q (sim + dt)%Q dt)%nat = true)
          by (apply Nat.ltb_lt; lia).
        now rewrite Hlt.
      * assert (Hz : 0 + inject_Z (Z.of_nat (S i)) * dt - inject_Z x == 0)
          by (rewrite Hxm; ring).
        unfold float. rewrite Hd, Hz. reflexivity.
Qed.

(** The script itself: 84 days of treatment, a horizon of 365 days in
    steps of 0.1; all 56 doses are given. *)
Lemma cyclic_regime_gives_every_dose_witness :
  exists days lf,
    dose_times_cyclic 84 = Some days /\
    C16.simulate exp_taylor euler_solver script_params 10 100 days 365 0.1
      = Some lf /\
    C16.dose_index lf = 56%nat.
Proof.
  destruct (dose_times_cyclic_total 84) as [days [Hdays _]].
  destruct (C16_for_loop_total exp_taylor euler_solver script_params 100
              (map inject_Z days) euler_returns_a_column
              (tl (arange 0 (365 + 0.1) 0.1)) (C16.initial 10)) as [lf Hrun].
  exists days, lf. split; [exact Hdays |]. split; [exact Hrun |].
  rewrite (cyclic_regime_gives_every_dose exp_taylor euler_solver
             script_params 10 100 84 days 365 0.1 10 lf Hdays);
    [| lra | reflexivity | vm_compute; discriminate | exact Hrun].
  vm_compute in Hdays. injection Hdays as <-. reflexivity.
Defined.

(** ** Results are append-only *)

Lemma firstn_exact {A : Type} (a b : list A) (n : nat) :
  length a = n -> firstn n (a ++ b) = a.
Proof.
  intros <-. rewrite firstn_app, Nat.sub_diag, firstn_all. cbn.
  apply app_nil_r.
Qed.

(** X11. What [10_C2.py] has reported is never changed by later
    iterations: the three result lists after the first [n] grid times are
    the first [n] entries of the lists of the complete run, so a shorter
    horizon on the same grid reports a prefix of the longer run. *)
Theorem reported_entries_never_change :
  forall (exp : float -> float) (solve_ivp : Solver) (p : Params)
         (dose : float) (dose_times : list float)
         (treatment_duration dt_step : float) (t_eval : list float)
         (TS0 : float) (lf : C2.Loop) (n : nat),
    C2.for_loop exp solve_ivp p dose dose_times treatment_duration dt_step
      t_eval (C2.initial TS0) = Some lf ->
    exists ln,
      C2.for_loop exp solve_ivp p dose dose_times treatment_duration dt_step
        (firstn n t_eval) (C2.initial TS0) = Some ln /\
      C2.t_list ln = firstn n (C2.t_list lf) /\
      C2.TS_list ln = firstn n (C2.TS_list lf) /\
      C2.EXPOSURE_list ln = firstn n (C2.EXPOSURE_list lf).
Proof.
  intros exp solve_ivp p dose dose_times D dt t_eval TS0 lf n Hrun.
  destruct (C2_for_loop_prefix exp solve_ivp p dose dose_times D dt t_eval
              _ lf n Hrun) as [ln [Hpre Hpost]].
  exists ln. split; [exact Hpre |].
  destruct (C2_for_loop_lists exp solve_ivp p dose dose_times D dt
              _ _ _ Hpre) as [Ht [Hts Hex]].
  destruct (C2_for_loop_lists exp solve_ivp p dose dose_times D dt
              _ _ _ Hrun) as [Htf _].
  destruct (C2_for_loop_keeps_entries exp solve_ivp p dose dose_times D dt
              _ _ _ Hpost) as [tss [exs [Hfts Hfex]]].
  cbn in Ht, Hts, Hex, Htf.
  split; [now rewrite Ht, Htf |].
  destruct (Nat.le_gt_cases n (length t_eval)) as [Hle | Hgt].
  - rewrite firstn_length_le in Hts, Hex by exact Hle.
    rewrite Hfts, Hfex.
    split; symmetry; apply firstn_exact; assumption.
  - assert (Hall : firstn n t_eval = t_eval) by (apply firstn_all2; lia).
    rewrite Hall in Hpre. rewrite Hrun in Hpre. injection Hpre as <-.
    destruct (C2_for_loop_lists exp solve_ivp p dose dose_times D dt
                _ _ _ Hrun) as [_ [Hl1 Hl2]].
    cbn in Hl1, Hl2. now rewrite !firstn_all2 by lia.
Qed.

(** Three grid times against the first one, with Euler steps. *)
Lemma reported_entries_never_change_witness :
  exists lf ln,
    C2.for_loop exp_taylor euler_solver script_params 20 [0] 252 0.1
      [0; 0.1; 0.2] (C2.initial 10) = Some lf /\
    C2.for_loop exp_taylor euler_solver script_params 20 [0] 252 0.1
      [0] (C2.initial 10) = Some ln /\
    C2.TS_list ln = firstn 1 (C2.TS_list lf).
Proof.
  destruct (C2_for_loop_total exp_taylor euler_solver script_params 20 [0]
              252 0.1 euler_returns_a_column [0; 0.1; 0.2] (C2.initial 10))
    as [lf Hrun].
  destruct (reported_entries_never_change exp_taylor euler_solver
              script_params 20 [0] 252 0.1 [0; 0.1; 0.2] 10 lf 1 Hrun)
    as [ln [Hpre [_ [Hts _]]]].
  exists lf, ln. split; [exact Hrun |]. split; [exact Hpre | exact Hts].
Defined.

(** ** The loop of [Simulations/10_C16.py]: what it reports *)

Lemma last_cons_default {A : Type} (l : list A) :
  forall a d d' : A, last (a :: l) d = last (a :: l) d'.
Proof.
  induction l as [| b l IH]; intros a d d'; [reflexivity |].
  change (last (b :: l) d = last (b :: l) d'). apply IH.
Qed.

Section C16_results.

Variable exp : float -> float.
Variable solve_ivp : Solver.
Variable p : Params.
Variable dose : float.
Variable dose_times : list float.

Let body := C16.body exp solve_ivp p dose dose_times.
Let for_loop := C16.for_loop exp solve_ivp p dose dose_times.

Lemma C16_for_loop_app (ts1 ts2 : list float) (l : C16.Loop) :
  for_loop (ts1 ++ ts2) l =
  match for_loop ts1 l with
  | Some l' => for_loop ts2 l'
  | None => None
  end.
Proof.
  revert l. induction ts1 as [| t ts1 IH]; intro l; cbn; [reflexivity |].
  fold body. destruct (body t l) as [l' |]; [apply IH | reflexivity].
Qed.

Lemma C16_bolus_lists (l : C16.Loop) :
  C16.TS_list (C16.bolus dose dose_times l) = C16.TS_list l /\
  C16.EXPOSURE_list (C16.bolus dose dose_times l) = C16.EXPOSURE_list l /\
  C16.t_list (C16.bolus dose dose_times l) = C16.t_list l.
Proof.
  unfold C16.bolus.
  now destruct (dose_due dose_times (C16.t_current l) (C16.dose_index l)).
Qed.

(** What an iteration that does not raise has done. *)
Lemma C16_body_done (t_next : float) (l l' : C16.Loop) :
  body t_next l = Some l' ->
  let l1 := C16.bolus dose dose_times l in
  last_column
    (solve_ivp
       (fun tt yy =>
          tgi_model exp p tt yy
            (C16.dose_active dose_times (C16.t_current l)))
       (C16.t_current l, t_next) (C16.y_current l1) [t_next])
    = Some (C16.y_current l') /\
  C16.t_current l' = t_next /\
  C16.TS_list l' = C16.TS_list l ++ [TS (C16.y_current l')] /\
  C16.EXPOSURE_list l' =
    C16.EXPOSURE_list l ++ [Ac (C16.y_current l') / V1 p] /\
  C16.t_list l' = C16.t_list l ++ [t_next].
Proof.
  intros H l1. subst l1. unfold body, C16.body in H. cbv zeta in H.
  destruct (C16_bolus_frame dose dose_times l) as [_ Ht].
  destruct (C16_bolus_lists l) as [F1 [F2 F3]].
  rewrite Ht in H.
  destruct (last_column _) as [y |] eqn:Hcol; [| discriminate H].
  injection H as <-. cbn. rewrite F1, F2, F3. repeat split; reflexivity.
Qed.

Lemma C16_for_loop_lists (t_nexts : list float) :
  forall l l' : C16.Loop,
    for_loop t_nexts l = Some l' ->
    C16.t_list l' = C16.t_list l ++ t_nexts /\
    (exists tss exs,
        C16.TS_list l' = C16.TS_list l ++ tss /\
        C16.EXPOSURE_list l' = C16.EXPOSURE_list l ++ exs /\
        length tss = length t_nexts /\ length exs = length t_nexts).
Proof.
  induction t_nexts as [| t ts IH]; intros l l' Hrun; cbn in Hrun.
  - injection Hrun as <-. rewrite app_nil_r. split; [reflexivity |].
    exists [], []. now rewrite !app_nil_r.
  - fold body in Hrun. destruct (body t l) as [l1 |] eqn:Hb;
      [| discriminate Hrun].
    destruct (IH _ _ Hrun) as [Ht [tss [exs [Hts [Hex [L1 L2]]]]]].
    apply C16_body_done in Hb. cbv zeta in Hb.
    destruct Hb as [_ [_ [Hts1 [Hex1 Ht1]]]].
    split; [rewrite Ht, Ht1, <- app_assoc; reflexivity |].
    exists ([TS (C16.y_current l1)] ++ tss),
           ([Ac (C16.y_current l1) / V1 p] ++ exs).
    rewrite Hts, Hex, Hts1, Hex1, <- !app_assoc. cbn [length app].
    repeat split; try reflexivity; lia.
Qed.

Lemma C16_for_loop_t_current (t_nexts : list float) :
  forall l l' : C16.Loop,
    for_loop t_nexts l = Some l' ->
    C16.t_current l' = last t_nexts (C16.t_current l).
Proof.
  induction t_nexts as [| t ts IH]; intros l l' Hrun; cbn in Hrun.
  - injection Hrun as <-. reflexivity.
  - fold body in Hrun. destruct (body t l) as [l1 |] eqn:Hb;
      [| discriminate Hrun].
    apply C16_body_done in Hb. cbv zeta in Hb. destruct Hb as [_ [Ht _]].
    rewrite (IH _ _ Hrun), Ht.
    destruct ts as [| a ts']; [reflexivity |].
    change (last (t :: a :: ts') (C16.t_current l))
      with (last (a :: ts') (C16.t_current l)).
    apply last_cons_default.
Qed.

End C16_results.

(** X12. In [Simulations/10_C16.py], when every solve returns a column, the
    time list is the grid without its first time, and the entry with label
    [t_next] holds [TS] and [Ac / V1] of the last column returned for the
    window that ends at [t_next] and starts at the label before it (at 0
    for the first entry): every entry is labelled with the end of its
    window. *)
Theorem cyclic_script_labels_window_ends :
  forall (exp : float -> float) (solve_ivp : Solver) (p : Params)
         (dose : float) (dose_times : list float)
         (t_nexts : list float) (TS0 : float),
    returns_a_column solve_ivp ->
    exists lf,
      C16.for_loop exp solve_ivp p dose dose_times t_nexts (C16.initial TS0)
        = Some lf /\
      C16.t_list lf = t_nexts /\
      length (C16.TS_list lf) = length t_nexts /\
      length (C16.EXPOSURE_list lf) = length t_nexts /\
      C16.t_current lf = last t_nexts 0 /\
      forall k t_next,
        nth_error t_nexts k = Some t_next ->
        exists lk y,
          C16.for_loop exp solve_ivp p dose dose_times (firstn k t_nexts)
            (C16.initial TS0) = Some lk /\
          C16.t_current lk = last (firstn k t_nexts) 0 /\
          last_column
            (solve_ivp
               (fun tt yy =>
                  tgi_model exp p tt yy
                    (C16.dose_active dose_times (C16.t_current lk)))
               (C16.t_current lk, t_next)
               (C16.y_current (C16.bolus dose dose_times lk)) [t_next])
            = Some y /\
          nth_error (C16.t_list lf) k = Some t_next /\
          nth_error (C16.TS_list lf) k = Some (TS y) /\
          nth_error (C16.EXPOSURE_list lf) k = Some (Ac y / V1 p).
Proof.
  intros exp solve_ivp p dose dose_times t_nexts TS0 Hcol.
  destruct (C16_for_loop_total exp solve_ivp p dose dose_times Hcol t_nexts
              (C16.initial TS0)) as [lf Hrun].
  exists lf. split; [exact Hrun |].
  destruct (C16_for_loop_lists exp solve_ivp p dose dose_times _ _ _ Hrun)
    as [Ht [tss [exs [Hts [Hex [L1 L2]]]]]].
  cbn in Ht, Hts, Hex.
  split; [exact Ht |]. split; [now rewrite Hts |]. split; [now rewrite Hex |].
  split; [exact (C16_for_loop_t_current exp solve_ivp p dose dose_times
                   _ _ _ Hrun) |].
  intros k t_next Hk.
  pose proof (firstn_skipn_middle k t_nexts Hk) as Hsplit.
  rewrite <- Hsplit, C16_for_loop_app in Hrun.
  destruct (C16.for_loop _ _ _ _ _ (firstn k t_nexts) _) as [lk |] eqn:Hpre;
    [| discriminate Hrun].
  cbn in Hrun.
  destruct (C16.body _ _ _ _ _ t_next lk) as [l1 |] eqn:Hb;
    [| discriminate Hrun].
  exists lk, (C16.y_current l1). split; [reflexivity |].
  split; [exact (C16_for_loop_t_current exp solve_ivp p dose dose_times
                   _ _ _ Hpre) |].
  apply C16_body_done in Hb. cbv zeta in Hb.
  destruct Hb as [Hlast [_ [Hts1 [Hex1 _]]]].
  split; [exact Hlast |]. split; [rewrite Ht; exact Hk |].
  destruct (C16_for_loop_lists exp solve_ivp p dose dose_times _ _ _ Hpre)
    as [_ [tsk [exk [Htsk [Hexk [Lk1 Lk2]]]]]].
  destruct (C16_for_loop_lists exp solve_ivp p dose dose_times _ _ _ Hrun)
    as [_ [tsr [exr [Htsr [Hexr _]]]]].
  cbn in Htsk, Hexk.
  assert (Hklen : length (firstn k t_nexts) = k).
  { apply firstn_length_le. apply Nat.lt_le_incl.
    apply nth_error_Some. congruence. }
  rewrite Hklen in Lk1, Lk2.
  rewrite Htsr, Hexr, Hts1, Hex1, Htsk, Hexk, <- !app_assoc. cbn [app].
  split.
  - rewrite nth_error_app2 by lia. now rewrite Lk1, Nat.sub_diag.
  - rewrite nth_error_app2 by lia. now rewrite Lk2, Nat.sub_diag.
Qed.

(** The script with Euler steps on a horizon of 0.2: two entries, the first
    one labelled 0.1. *)
Lemma cyclic_script_labels_window_ends_witness :
  exists lf,
    C16.simulate exp_taylor euler_solver script_params 10 100 [0%Z] 0.2 0.1
      = Some lf /\
    length (C16.t_list lf) = 2%nat /\
    (exists t, nth_error (C16.t_list lf) 0 = Some t /\ t == 0.1).
Proof.
  destruct (cyclic_script_labels_window_ends exp_taylor euler_solver
              script_params 100 (map inject_Z [0%Z])
              (tl (arange 0 (0.2 + 0.1) 0.1)) 10 euler_returns_a_column)
    as [lf [Hrun [Ht _]]].
  exists lf. split; [exact Hrun |]. rewrite Ht.
  split; [reflexivity |]. eexists. split; reflexivity.
Defined.

(** ** The treatment clock counts the active iterations *)

Section RungeKuttaConstant.

Variable f : float -> State -> Deriv.
Variable c : float.
Hypothesis clock_rate : forall t y, dtimeSinceTrtStart (f t y) == c.

Lemma rk_stages_length (t h : float) (y : State)
    (rows : list (float * list float)) :
  forall ks, length (rk_stages f t h y rows ks) = (length ks + length rows)%nat.
Proof.
  induction rows as [| [c0 a] rows IH]; intro ks; cbn; [lia |].
  rewrite IH, length_app. cbn. lia.
Qed.

Lemma rk_stages_rate (t h : float) (y : State)
    (rows : list (float * list float)) :
  forall ks,
    Forall (fun k => dtimeSinceTrtStart k == c) ks ->
    Forall (fun k => dtimeSinceTrtStart k == c) (rk_stages f t h y rows ks).
Proof.
  induction rows as [| [c0 a] rows IH]; intros ks Hks; cbn; [exact Hks |].
  apply IH. apply Forall_app. split; [exact Hks |].
  constructor; [apply clock_rate | constructor].
Qed.

Lemma combine_stages_rate (a : list float) :
  forall ks,
    Forall (fun k => dtimeSinceTrtStart k == c) ks ->
    length a = length ks ->
    dtimeSinceTrtStart (combine_stages a ks) == c * fold_right Qplus 0 a.
Proof.
  induction a as [| a_j a IH]; intros ks Hks Hlen.
  - cbn. ring.
  - destruct Hks as [| k_j ks Hk Hks]; [discriminate Hlen |].
    cbn [combine_stages dtimeSinceTrtStart fold_right].
    rewrite Hk, (IH ks Hks) by (cbn in Hlen; lia). ring.
Qed.

End RungeKuttaConstant.

(** A Runge-Kutta scheme with as many weights as stages and weights that
    add up to 1, stepping over the whole window at once, advances a clock
    of constant rate exactly. *)
Lemma rk_integrates_constant_clock (tb : Tableau) :
  length (weights tb) = length (stages tb) ->
  weight_sum tb == 1 ->
  integrates_constant_clock (rk_solver tb whole_window).
Proof.
  intros Hlen Hsum f t_span y0 t_eval y1 c Hrate Hcol.
  unfold rk_solver, whole_window, last_column in Hcol. cbn in Hcol.
  injection Hcol as <-. unfold rk_step, advance. cbn [timeSinceTrtStart].
  assert (Hd : dtimeSinceTrtStart
                 (combine_stages (weights tb)
                    (rk_stages f (fst t_span) (snd t_span - fst t_span) y0
                       (stages tb) []))
               == c * fold_right Qplus 0 (weights tb)).
  { apply combine_stages_rate.
    - apply rk_stages_rate; [exact Hrate | constructor].
    - rewrite rk_stages_length. cbn. exact Hlen. }
  rewrite Hd. unfold weight_sum in Hsum. rewrite Hsum. ring.
Qed.

Lemma C2_body_clock_rate (exp : float -> float) (solve_ivp : Solver)
    (p : Params) (dose : float) (dose_times : list float)
    (treatment_duration dt_step : float) (t : float) (l l' : C2.Loop) :
  integrates_constant_clock solve_ivp ->
  C2.body exp solve_ivp p dose dose_times treatment_duration dt_step t l
    = Some l' ->
  timeSinceTrtStart (C2.state l') ==
  timeSinceTrtStart (C2.state l)
  + (if C2.dose_active treatment_duration t then 1 else 0) * dt_step.
Proof.
  intros Hsolver Hb. apply C2_body_Some in Hb. cbv zeta in Hb.
  destruct Hb as [Hcol _].
  assert (Hrate : forall t0 y,
             dtimeSinceTrtStart
               (tgi_model exp p t0 y (C2.dose_active treatment_duration t))
             == if C2.dose_active treatment_duration t then 1 else 0)
    by (intros t0 y; reflexivity).
  rewrite (Hsolver _ _ _ _ _ _ Hrate Hcol).
  rewrite C2_bolus_clock. cbn [fst snd]. ring.
Qed.

(** X13. With a solver that advances a clock of constant rate exactly, the
    clock at the end of a run of [10_C2.py] is the clock at its start plus
    one step for every grid time with [t <= treatment_duration]: the clock
    counts the iterations flagged active and nothing else. *)
Theorem clock_counts_active_iterations :
  forall (exp : float -> float) (solve_ivp : Solver) (p : Params)
         (dose : float) (dose_times : list float)
         (treatment_duration dt_step : float) (t_eval : list float)
         (l0 lf : C2.Loop),
    integrates_constant_clock solve_ivp ->
    C2.for_loop exp solve_ivp p dose dose_times treatment_duration dt_step
      t_eval l0 = Some lf ->
    timeSinceTrtStart (C2.state lf) ==
    timeSinceTrtStart (C2.state l0)
    + inject_Z (Z.of_nat
        (length (filter (C2.dose_active treatment_duration) t_eval)))
      * dt_step.
Proof.
  intros exp solve_ivp p dose dose_times D dt t_eval l0 lf Hsolver.
  revert l0. induction t_eval as [| t ts IH]; intros l0 Hrun; cbn in Hrun.
  - injection Hrun as <-. cbn [filter length Z.of_nat].
    change (inject_Z 0) with 0. symmetry. ring.
  - destruct (C2.body _ _ _ _ _ _ _ t l0) as [l1 |] eqn:Hb;
      [| discriminate Hrun].
    rewrite (IH l1 Hrun).
    rewrite (C2_body_clock_rate exp solve_ivp p dose dose_times D dt t l0 l1
               Hsolver Hb).
    cbn [filter]. destruct (C2.dose_active D t).
    + cbn [length]. rewrite Nat2Z.inj_succ. unfold Z.succ.
      rewrite inject_Z_plus. change (inject_Z 1) with 1. ring.
    + ring.
Qed.

(** A treatment of 0.1 days on the grid 0, 0.1, 0.2, 0.3, integrated with
    the classical scheme of order 4: two grid times are active and the
    clock ends at 0.2, one step beyond the treatment. *)
Lemma clock_counts_active_iterations_witness :
  exists lf,
    C2.for_loop exp_taylor (rk_solver rk4_tableau whole_window) script_params
      20 [0] 0.1 0.1 [0; 0.1; 0.2; 0.3] (C2.initial 10) = Some lf /\
    timeSinceTrtStart (C2.state lf) == 0.2.
Proof.
  destruct (C2_for_loop_total exp_taylor (rk_solver rk4_tableau whole_window)
              script_params 20 [0] 0.1 0.1 (rk_returns_a_column _ _)
              [0; 0.1; 0.2; 0.3] (C2.initial 10)) as [lf Hrun].
  exists lf. split; [exact Hrun |].
  rewrite (clock_counts_active_iterations exp_taylor
             (rk_solver rk4_tableau whole_window) script_params 20 [0]
             0.1 0.1 [0; 0.1; 0.2; 0.3] (C2.initial 10) lf
             (rk_integrates_constant_clock rk4_tableau eq_refl
                ltac:(reflexivity)) Hrun).
  reflexivity.
Defined.

(** ** The active flag of [Simulations/10_C16.py] *)

Lemma C16_dose_active_iff (dose_times : list float) (t : float) :
  C16.dose_active dose_times t = true <->
  exists d, In d dose_times /\ Qabs (t - d) <= 0.5 + (1 # 100000) * Qabs d.
Proof.
  unfold C16.dose_active, C16.isclose. rewrite existsb_exists.
  split; intros [d [Hin H]]; exists d; (split; [exact Hin |]).
  - apply Qle_bool_iff in H. exact H.
  - apply Qle_bool_iff. exact H.
Qed.

(** X14. In [Simulations/10_C16.py] an iteration that adds a bolus always
    integrates with the flag on: a dose within [1e-6] of [t_current] is
    also within the tolerance of the active test. *)
Theorem cyclic_bolus_iteration_is_active :
  forall (exp : float -> float) (solve_ivp : Solver) (p : Params)
         (dose : float) (dose_times : list float) (t_nexts : list float)
         (l0 : C16.Loop) (n k : nat),
    C16.bolus_at exp solve_ivp p dose dose_times t_nexts l0 n k ->
    exists l,
      C16.for_loop exp solve_ivp p dose dose_times (firstn n t_nexts) l0
        = Some l /\
      C16.dose_index (C16.bolus dose dose_times l) = S k /\
      C16.dose_active dose_times
        (C16.t_current (C16.bolus dose dose_times l)) = true.
Proof.
  intros exp solve_ivp p dose dose_times t_nexts l0 n k
         [l [Hn [Hpre [Hk Hdue]]]].
  exists l. split; [exact Hpre |].
  destruct (C16_bolus_frame dose dose_times l) as [Hidx Ht].
  rewrite Hidx, Ht, Hk. unfold next_index. rewrite Hdue.
  split; [reflexivity |].
  apply dose_due_spec in Hdue. destruct Hdue as [Hlt Hclose].
  apply C16_dose_active_iff. exists (nth k dose_times 0).
  split; [apply nth_In; exact Hlt |].
  pose proof (Qabs_nonneg (nth k dose_times 0)) as Hnn.
  assert (Htol : (1 # 1000000) <= 0.5) by (vm_compute; discriminate).
  change 1e-6 with (1 # 1000000) in Hclose.
  set (a := Qabs (C16.t_current l - nth k dose_times 0)) in *.
  set (b := Qabs (nth k dose_times 0)) in *. lra.
Qed.

(** The first iteration of the script: the dose of day 0 is added and the
    flag is on. *)
Lemma cyclic_bolus_iteration_is_active_witness :
  C16.dose_active (map inject_Z [0%Z; 1%Z])
    (C16.t_current (C16.bolus 100 (map inject_Z [0%Z; 1%Z]) (C16.initial 10)))
  = true.
Proof.
  destruct (cyclic_bolus_iteration_is_active exp_taylor euler_solver
              script_params 100 (map inject_Z [0%Z; 1%Z]) [0.1; 0.2]
              (C16.initial 10) 0 0) as [l [Hpre [_ Hact]]].
  - exists (C16.initial 10). split; [cbn; lia |]. split; [reflexivity |].
    split; reflexivity.
  - cbn in Hpre. injection Hpre as <-. exact Hact.
Defined.

(** X15. On the schedule the cyclic generator returns, the flag of
    [Simulations/10_C16.py] is on at every time of a complete ON block,
    from its first day to half a day after its last day, and off in the gap
    behind it, between the tolerance after the last day of the block and
    the tolerance before the first day of the next one. *)
Theorem cyclic_flag_follows_blocks :
  forall (treatment_duration : Z) (days : list Z) (k : Z) (t : float),
    dose_times_cyclic treatment_duration = Some days ->
    (0 <= k)%Z -> (42 * k + 28 <= treatment_duration)%Z ->
    (inject_Z (42 * k) <= t -> t <= inject_Z (42 * k + 27) + 0.5 ->
     C16.dose_active (map inject_Z days) t = true) /\
    (inject_Z (42 * k + 27) * (1 + 0.00001) + 0.5 < t ->
     t < inject_Z (42 * k + 42) * (1 - 0.00001) - 0.5 ->
     C16.dose_active (map inject_Z days) t = false).
Proof.
  intros D days k t Hdays Hk Hfull.
  unfold dose_times_cyclic in Hdays.
  pose proof (while_on_off_members D _ 0%Z [] days ltac:(lia) eq_refl Hdays)
    as Hmem.
  assert (Hiff : forall x, In x days <-> (0 <= x < D /\ x mod 42 < 28)%Z).
  { intro x. rewrite Hmem. cbn [In]. tauto. }
  assert (Hblock : forall x, (42 * k <= x < 42 * k + 42 ->
                              x mod 42 = x - 42 * k)%Z).
  { intros x Hx. replace x with ((x - 42 * k) + k * 42)%Z at 1 by lia.
    rewrite Z.mod_add by lia. apply Z.mod_small. lia. }
  split.
  - intros Hlo Hhi. apply C16_dose_active_iff.
    set (fl := Qfloor (t + 0.5)).
    assert (Hfl1 : inject_Z fl <= t + 0.5) by apply Qfloor_le.
    assert (Hfl2 : t + 0.5 < inject_Z (fl + 1)) by apply Qlt_floor.
    rewrite inject_Z_plus in Hfl2. change (inject_Z 1) with 1 in Hfl2.
    assert (Hfl0 : (42 * k <= fl)%Z).
    { rewrite <- (Qfloor_Z (42 * k)). apply Qfloor_resp_le. lra. }
    set (x := Z.min (42 * k + 27) fl).
    assert (Hx : (42 * k <= x <= 42 * k + 27)%Z) by lia.
    exists (inject_Z x). split.
    + apply in_map, Hiff. split; [lia |]. rewrite Hblock by lia. lia.
    + pose proof (Qabs_nonneg (inject_Z x)) as Hnn.
      assert (Hhalf : Qabs (t - inject_Z x) <= 0.5).
      { apply Qabs_Qle_condition.
        destruct (Z.le_gt_cases fl (42 * k + 27)) as [Hin | Hout].
        - replace x with fl by lia. split; lra.
        - replace x with (42 * k + 27)%Z by lia.
          assert (Hge : inject_Z (42 * k + 28) <= inject_Z fl)
            by (rewrite <- Zle_Qle; lia).
          replace (42 * k + 28)%Z with ((42 * k + 27) + 1)%Z in Hge by lia.
          rewrite inject_Z_plus in Hge. change (inject_Z 1) with 1 in Hge.
          split; lra. }
      set (a := Qabs (t - inject_Z x)) in *.
      set (b := Qabs (inject_Z x)) in *. lra.
  - intros Hlo Hhi. apply not_true_iff_false. rewrite C16_dose_active_iff.
    intros [d [Hin Hclose]]. apply in_map_iff in Hin.
    destruct Hin as [x [<- Hx]]. apply Hiff in Hx. destruct Hx as [Hx Hmod].
    assert (Habs : Qabs (inject_Z x) == inject_Z x).
    { apply Qabs_pos. change 0 with (inject_Z 0). rewrite <- Zle_Qle. lia. }
    rewrite Habs in Hclose. apply Qabs_Qle_condition in Hclose.
    destruct Hclose as [Hc1 Hc2].
    destruct (Z.le_gt_cases x (42 * k + 27)) as [Hbefore | Hafter].
    + assert (Hle : inject_Z x <= inject_Z (42 * k + 27))
        by (rewrite <- Zle_Qle; exact Hbefore).
      lra.
    + assert (Hnext : (42 * k + 42 <= x)%Z).
      { destruct (Z.lt_ge_cases x (42 * k + 42)) as [Hgap | Hok]; [| exact Hok].
        rewrite Hblock in Hmod by lia. lia. }
      assert (Hle : inject_Z (42 * k + 42) <= inject_Z x)
        by (rewrite <- Zle_Qle; exact Hnext).
      lra.
Qed.

(** The schedule of the script: day 27.5 of the first block is active, day
    35, in the first gap, is not. *)
Lemma cyclic_flag_follows_blocks_witness :
  exists days,
    dose_times_cyclic 84 = Some days /\
    C16.dose_active (map inject_Z days) 27.5 = true /\
    C16.dose_active (map inject_Z days) 35 = false.
Proof.
  destruct (dose_times_cyclic_total 84) as [days [Hdays _]].
  exists days. split; [exact Hdays |].
  destruct (cyclic_flag_follows_blocks 84 days 0 27.5 Hdays ltac:(lia)
              ltac:(lia)) as [Hon _].
  destruct (cyclic_flag_follows_blocks 84 days 0 35 Hdays ltac:(lia)
              ltac:(lia)) as [_ Hoff].
  split.
  - apply Hon; vm_compute; discriminate.
  - apply Hoff; vm_compute; reflexivity.
Defined.

(** ** The frames of the animated scripts *)

Lemma map_seq_sorted_Z (f : nat -> Z) :
  (forall i j : nat, (i < j)%nat -> (f i < f j)%Z) ->
  forall len start : nat, StronglySorted Z.lt (map f (seq start len)).
Proof.
  intros Hf. induction len as [| len IH]; intro start; cbn.
  - constructor.
  - constructor; [apply IH |].
    apply Forall_forall. intros x Hx.
    apply in_map_iff in Hx. destruct Hx as [j [<- Hj]].
    apply in_seq in Hj. apply Hf. lia.
Qed.

(** The number of values of an integer [arange] with a positive step. *)
Lemma ceil_div_bounds (n step : Z) :
  (0 < step)%Z ->
  (step * (- (- n / step) - 1) < n <= step * - (- n / step))%Z.
Proof.
  intro Hs. pose proof (Z.div_mod (- n) step ltac:(lia)).
  pose proof (Z.mod_pos_bound (- n) step Hs). nia.
Qed.

Lemma arange_int_positive_step (n step : Z) :
  (0 < step)%Z ->
  exists l,
    arange_int n step = Some l /\
    StronglySorted Z.lt l /\
    length l = Z.to_nat (- (- n / step)) /\
    (forall i : nat,
        (i < length l)%nat -> nth_error l i = Some (Z.of_nat i * step)%Z) /\
    Forall (fun x => (0 <= x < n)%Z) l.
Proof.
  intro Hs. unfold arange_int.
  assert (Hne : (step =? 0)%Z = false) by (apply Z.eqb_neq; lia).
  rewrite Hne. eexists. split; [reflexivity |].
  pose proof (ceil_div_bounds n step Hs) as Hc.
  split; [| split; [| split]].
  - apply map_seq_sorted_Z. intros i j Hij. nia.
  - now rewrite length_map, length_seq.
  - intros i Hi. rewrite length_map, length_seq in Hi.
    rewrite nth_error_map, nth_error_seq.
    apply Nat.ltb_lt in Hi. now rewrite Hi.
  - apply Forall_forall. intros x Hx. apply in_map_iff in Hx.
    destruct Hx as [i [<- Hi]]. apply in_seq in Hi. nia.
Qed.

Lemma py_int_ten_over_step (dt_step : float) :
  0 < dt_step -> dt_step <= 10 ->
  (1 <= py_int (round_double (10 / dt_step))%Q)%Z.
Proof.
  intros Hpos Hle. unfold py_int.
  assert (H1 : 1 <= round_double (10 / dt_step)).
  { assert (H : round_double 1 == 1)
      by (apply (round_double_integer 1); reflexivity).
    rewrite <- H. apply round_double_mono.
    apply Qle_shift_div_l; lra. }
  assert (H0 : Qle_bool 0 (round_double (10 / dt_step)) = true)
    by (apply Qle_bool_iff; lra).
  rewrite H0. rewrite <- (Qfloor_Z 1). apply Qfloor_resp_le. exact H1.
Qed.

Lemma py_get_last {A : Type} (a : list A) (x : A) :
  py_get (a ++ [x]) (-1) = Some x.
Proof.
  unfold py_get. rewrite length_app. cbn [length Z.ltb Z.compare].
  assert (H : (- -1 <=? Z.of_nat (length a + 1))%Z = true)
    by (apply Z.leb_le; lia).
  rewrite H.
  replace (Z.to_nat (Z.of_nat (length a + 1) + -1)) with (length a) by lia.
  rewrite nth_error_app2 by lia. now rewrite Nat.sub_diag.
Qed.

Lemma py_get_nonneg {A : Type} (a : list A) (i : nat) :
  py_get a (Z.of_nat i) = nth_error a i.
Proof.
  unfold py_get.
  assert (H : (Z.of_nat i <? 0)%Z = false) by (apply Z.ltb_ge; lia).
  now rewrite H, Nat2Z.id.
Qed.

Lemma every_ten_days_spec (n : nat) (dt_step : float) :
  0 < dt_step -> dt_step <= 10 ->
  let step := py_int (round_double (10 / dt_step)) in
  exists l,
    every_ten_days n dt_step = Some l /\
    StronglySorted Z.lt l /\
    length l = Z.to_nat (- (- Z.of_nat n / step)) /\
    (forall i : nat,
        (i < length l)%nat -> nth_error l i = Some (Z.of_nat i * step)%Z) /\
    Forall (fun x => (0 <= x < Z.of_nat n)%Z) l.
Proof.
  intros Hpos Hle step. unfold every_ten_days.
  assert (Hz : Qeq_bool dt_step 0 = false).
  { apply not_true_iff_false. intro H. apply Qeq_bool_iff in H. lra. }
  rewrite Hz. apply arange_int_positive_step.
  pose proof (py_int_ten_over_step dt_step Hpos Hle). unfold step. lia.
Qed.

Lemma C17_frame_indices_spec :
  forall (n : nat) (dt_step : float),
    0 < dt_step -> dt_step <= 10 ->
    ((1 <= n)%nat ->
     exists l fi,
       every_ten_days n dt_step = Some l /\
       C17.frame_indices n dt_step = Some fi /\
       (fi = l \/ fi = l ++ [(Z.of_nat n - 1)%Z]) /\
       Forall (fun x => (0 <= x < Z.of_nat n)%Z) fi /\
       py_get fi 0 = Some 0%Z /\
       py_get fi (-1) = Some (Z.of_nat n - 1)%Z) /\
    C17.frame_indices 0 dt_step = None.
Proof.
  intros n dt Hpos Hle. split.
  - intro Hn.
    destruct (every_ten_days_spec n dt Hpos Hle)
      as [l [Hl [Hs [Hlen [Hnth Hall]]]]].
    cbv zeta in Hlen, Hnth.
    pose proof (py_int_ten_over_step dt Hpos Hle) as Hstep.
    set (step := py_int (round_double (10 / dt))) in *.
    pose proof (ceil_div_bounds (Z.of_nat n) step ltac:(lia)) as Hc.
    assert (Hpos_len : (1 <= length l)%nat) by (rewrite Hlen; nia).
    exists l.
    destruct l as [| x0 l'] using rev_ind; [cbn in Hpos_len; lia |].
    clear IHl'. unfold C17.frame_indices. rewrite Hl, py_get_last.
    assert (Hfirst : nth_error (l' ++ [x0]) 0 = Some 0%Z).
    { rewrite (Hnth 0%nat) by lia. reflexivity. }
    destruct (x0 =? Z.of_nat n - 1)%Z eqn:Heq; cbn [negb].
    + apply Z.eqb_eq in Heq. exists (l' ++ [x0]).
      split; [reflexivity |]. split; [reflexivity |]. split; [now left |].
      split; [exact Hall |].
      split; [exact Hfirst |]. rewrite py_get_last. now rewrite Heq.
    + exists ((l' ++ [x0]) ++ [(Z.of_nat n - 1)%Z]).
      split; [reflexivity |]. split; [reflexivity |]. split; [now right |].
      split; [| split].
      * apply Forall_app. split; [exact Hall |]. constructor; [lia |].
        constructor.
      * change 0%Z with (Z.of_nat 0). rewrite py_get_nonneg.
        rewrite nth_error_app1 by (rewrite length_app; cbn; lia).
        exact Hfirst.
      * apply py_get_last.
  - unfold C17.frame_indices.
    destruct (every_ten_days_spec 0 dt Hpos Hle)
      as [l [Hl [_ [Hlen _]]]].
    cbv zeta in Hlen. rewrite Hl.
    pose proof (py_int_ten_over_step dt Hpos Hle) as Hstep.
    pose proof (ceil_div_bounds (Z.of_nat 0) (py_int (round_double (10 / dt))%Q) ltac:(lia)).
    assert (H0 : length l = 0%nat) by (rewrite Hlen; nia).
    destruct l; [reflexivity | discriminate H0].
Qed.

Lemma sorted_below_last (l : list Z) (x b : Z) :
  StronglySorted Z.lt (l ++ [x]) -> In b (l ++ [x]) -> (b <= x)%Z.
Proof.
  induction l as [| y l IH]; cbn; intros Hs Hb.
  - destruct Hb as [<- | []]. lia.
  - apply StronglySorted_inv in Hs. destruct Hs as [Hs Hy].
    destruct Hb as [<- | Hb]; [| apply IH; assumption].
    pose proof (proj1 (Forall_forall _ _) Hy x
                  ltac:(apply in_app_iff; right; now left)). lia.
Qed.

(** X16. In [Simulations/1_C17 copy.py], for a step size in [(0, 10]] and a
    non-empty result, the frame indices are strictly increasing valid
    indices of the result arrays, they start at sample 0 and they end at the
    last sample; with an empty result building them raises. *)
Theorem frames_end_at_last_sample :
  forall (n : nat) (dt_step : float),
    0 < dt_step -> dt_step <= 10 ->
    ((1 <= n)%nat ->
     exists fi,
       C17.frame_indices n dt_step = Some fi /\
       StronglySorted Z.lt fi /\
       Forall (fun x => (0 <= x < Z.of_nat n)%Z) fi /\
       py_get fi 0 = Some 0%Z /\
       py_get fi (-1) = Some (Z.of_nat n - 1)%Z) /\
    C17.frame_indices 0 dt_step = None.
Proof.
  intros n dt Hpos Hle.
  destruct (C17_frame_indices_spec n dt Hpos Hle) as [Hsome Hnone].
  split; [| exact Hnone].
  intro Hn. destruct (Hsome Hn) as [l [fi [Hl [Hfi [Hshape [Hall Hends]]]]]].
  exists fi. split; [exact Hfi |]. split; [| split; assumption].
  destruct (every_ten_days_spec n dt Hpos Hle)
    as [l' [Hl' [Hs [_ [_ Hbelow]]]]].
  rewrite Hl in Hl'. injection Hl' as <-.
  destruct Hshape as [-> | ->]; [exact Hs |].
  apply app_sorted; [exact Hs | repeat constructor |].
  intros a b Ha [<- | []].
  pose proof (proj1 (Forall_forall _ _) Hbelow a Ha) as Hlt. cbv beta in Hlt.
  destruct (Z.eq_dec a (Z.of_nat n - 1)) as [Heq | Hne]; [| lia].
  exfalso. subst a.
  (* the last of the ten-day frames would be the last sample *)
  destruct l as [| x0 l0] using rev_ind; [contradiction |]. clear IHl0.
  pose proof (sorted_below_last l0 x0 _ Hs Ha) as Hle0.
  pose proof (proj1 (Forall_forall _ _) Hbelow x0
                ltac:(apply in_app_iff; right; now left)) as Hx0.
  cbv beta in Hx0. assert (Hx : x0 = (Z.of_nat n - 1)%Z) by lia.
  unfold C17.frame_indices in Hfi. rewrite Hl, py_get_last in Hfi.
  rewrite Hx, Z.eqb_refl in Hfi. cbn [negb] in Hfi. injection Hfi as Hfi.
  apply (f_equal (@length Z)) in Hfi. rewrite !length_app in Hfi.
  cbn in Hfi. lia.
Qed.

(** The result of the script: 3650 samples in steps of 0.1; the frames end
    at sample 3649. *)
Lemma frames_end_at_last_sample_witness :
  exists fi,
    C17.frame_indices 3650 0.1 = Some fi /\
    py_get fi (-1) = Some 3649%Z.
Proof.
  destruct (proj1 (frames_end_at_last_sample 3650 0.1 ltac:(lra) ltac:(lra))
              ltac:(lia)) as [fi [Hfi [_ [_ [_ Hlast]]]]].
  exists fi. split; [exact Hfi | exact Hlast].
Defined.

(** The frame step is the integer part of the double quotient: for the
    double nearest to [10/3] the exact quotient is just below 3 and the
    double quotient is 3. *)
Lemma frame_step_of_rounded_quotient :
  py_int (round_double (10 / round_double (10 / 3))) = 3%Z /\
  py_int (10 / round_double (10 / 3)) = 2%Z /\
  py_int (round_double (10 / round_double 0.1)) = 100%Z.
Proof. vm_compute. repeat split. Qed.

(** X17. In [Simulations/01_C2.py], for a step size in [(0, 10]] and a
    non-empty result, the frame indices are the multiples of
    [int(10/dt_step)], the integer part of the double quotient, below the
    number of samples; the last frame is sample [step * ((n - 1) / step)],
    which is the last sample only when [n - 1] is a multiple of the step:
    otherwise the animation stops before the end of the run. *)
Theorem frames_every_ten_days_can_stop_early :
  forall (n : nat) (dt_step : float),
    0 < dt_step -> dt_step <= 10 -> (1 <= n)%nat ->
    let step := py_int (round_double (10 / dt_step)) in
    exists fi,
      A01.frame_indices n dt_step = Some fi /\
      StronglySorted Z.lt fi /\
      Forall (fun x => (0 <= x < Z.of_nat n)%Z) fi /\
      py_get fi (-1) = Some (step * ((Z.of_nat n - 1) / step))%Z /\
      (py_get fi (-1) = Some (Z.of_nat n - 1)%Z <->
       ((Z.of_nat n - 1) mod step = 0)%Z).
Proof.
  intros n dt Hpos Hle Hn step.
  destruct (every_ten_days_spec n dt Hpos Hle)
    as [l [Hl [Hs [Hlen [Hnth Hall]]]]].
  cbv zeta in Hlen, Hnth. fold step in Hlen, Hnth.
  pose proof (py_int_ten_over_step dt Hpos Hle) as Hstep. fold step in Hstep.
  pose proof (ceil_div_bounds (Z.of_nat n) step ltac:(lia)) as Hc.
  exists l. split; [exact Hl |]. split; [exact Hs |]. split; [exact Hall |].
  assert (Hpos_len : (1 <= length l)%nat) by (rewrite Hlen; nia).
  assert (Hq : ((Z.of_nat n - 1) / step = Z.of_nat (length l) - 1)%Z).
  { symmetry. apply Z.div_unique with (r := (Z.of_nat n - 1
                                  - step * (Z.of_nat (length l) - 1))%Z).
    - left. rewrite Hlen. nia.
    - lia. }
  assert (Hlast : py_get l (-1)
                  = Some (step * ((Z.of_nat n - 1) / step))%Z).
  { unfold py_get. cbn [Z.ltb Z.compare].
    assert (H : (- -1 <=? Z.of_nat (length l))%Z = true)
      by (apply Z.leb_le; lia).
    rewrite H.
    replace (Z.to_nat (Z.of_nat (length l) + -1)) with (length l - 1)%nat
      by lia.
    rewrite Hnth by lia. rewrite Hq. f_equal.
    replace (Z.of_nat (length l - 1)) with (Z.of_nat (length l) - 1)%Z by lia.
    ring. }
  split; [exact Hlast |].
  rewrite Hlast. pose proof (Z.div_mod (Z.of_nat n - 1) step ltac:(lia)) as Hdm.
  split.
  - intro H. injection H as H. lia.
  - intro H. f_equal. lia.
Qed.

(** The result of that script: 3651 samples in steps of 0.1; the last frame
    is sample 3600, day 360 of 365. *)
Lemma frames_every_ten_days_can_stop_early_witness :
  exists fi,
    A01.frame_indices 3651 0.1 = Some fi /\
    py_get fi (-1) = Some 3600%Z /\
    py_get fi (-1) <> Some 3650%Z.
Proof.
  destruct (frames_every_ten_days_can_stop_early 3651 0.1 ltac:(lra)
              ltac:(lra) ltac:(lia)) as [fi [Hfi [_ [_ [Hlast _]]]]].
  exists fi. split; [exact Hfi |].
  assert (H : py_get fi (-1) = Some 3600%Z)
    by (rewrite Hlast; vm_compute; reflexivity).
  split; [exact H |]. rewrite H. discriminate.
Defined.

Lemma py_upto_nonneg {A : Type} (a : list A) (j : Z) :
  (0 <= j)%Z -> py_upto a j = firstn (Z.to_nat j) a.
Proof.
  intro Hj. unfold py_upto.
  assert (H : (j <? 0)%Z = false) by (apply Z.ltb_ge; exact Hj).
  now rewrite H.
Qed.

Lemma py_get_valid {A : Type} (a : list A) (i : Z) :
  (0 <= i < Z.of_nat (length a))%Z ->
  exists x, py_get a i = Some x /\ nth_error a (Z.to_nat i) = Some x.
Proof.
  intro Hi. unfold py_get.
  assert (H : (i <? 0)%Z = false) by (apply Z.ltb_ge; lia).
  rewrite H.
  destruct (nth_error a (Z.to_nat i)) as [x |] eqn:Hx; [now exists x |].
  apply nth_error_None in Hx. lia.
Qed.

(** X18. With three result arrays of the same length, every frame of
    [Simulations/1_C17 copy.py] can be drawn: [update] raises for no frame
    number below the number of frames, the sphere has half the tumour size
    of the frame's sample as radius, the curves show the samples up to and
    including that one, and the last frame shows the three arrays in
    full. *)
Theorem every_frame_can_be_drawn :
  forall (dt_step : float) (t_array TS_array EXPOSURE_array : list float)
         (fi : list Z),
    0 < dt_step -> dt_step <= 10 ->
    length TS_array = length t_array ->
    length EXPOSURE_array = length t_array ->
    C17.frame_indices (length t_array) dt_step = Some fi ->
    (forall frame_idx : nat,
        (frame_idx < length fi)%nat ->
        exists fr ts,
          update fi t_array TS_array EXPOSURE_array (Z.of_nat frame_idx)
            = Some fr /\
          nth_error fi frame_idx = Some (frame fr) /\
          nth_error TS_array (Z.to_nat (frame fr)) = Some ts /\
          R fr = ts / 2 /\
          t_shown fr = firstn (Z.to_nat (frame fr) + 1) t_array /\
          TS_shown fr = firstn (Z.to_nat (frame fr) + 1) TS_array /\
          EXPOSURE_shown fr =
            firstn (Z.to_nat (frame fr) + 1) EXPOSURE_array /\
          length (TS_shown fr) = (Z.to_nat (frame fr) + 1)%nat) /\
    (exists fr,
        update fi t_array TS_array EXPOSURE_array
          (Z.of_nat (length fi) - 1) = Some fr /\
        t_shown fr = t_array /\
        TS_shown fr = TS_array /\
        EXPOSURE_shown fr = EXPOSURE_array).
Proof.
  intros dt t_array TS_array EXPOSURE_array fi Hpos Hle HlenTS HlenEX Hfi.
  destruct (length t_array) as [| n'] eqn:Hn.
  { rewrite (proj2 (C17_frame_indices_spec 0 dt Hpos Hle)) in Hfi.
    discriminate Hfi. }
  destruct (proj1 (C17_frame_indices_spec (S n') dt Hpos Hle) ltac:(lia))
    as [l [fi' [_ [Hfi' [_ [Hall [Hfirst Hlast]]]]]]].
  rewrite Hfi in Hfi'. injection Hfi' as <-.
  assert (Hdraw : forall fr_i : Z,
             (0 <= fr_i < Z.of_nat (S n'))%Z ->
             forall idx, py_get fi idx = Some fr_i ->
             exists fr ts,
               update fi t_array TS_array EXPOSURE_array idx = Some fr /\
               frame fr = fr_i /\
               nth_error TS_array (Z.to_nat fr_i) = Some ts /\
               R fr = ts / 2 /\
               t_shown fr = firstn (Z.to_nat fr_i + 1) t_array /\
               TS_shown fr = firstn (Z.to_nat fr_i + 1) TS_array /\
               EXPOSURE_shown fr = firstn (Z.to_nat fr_i + 1) EXPOSURE_array).
  { intros fr_i Hr idx Hidx. unfold update. rewrite Hidx.
    destruct (py_get_valid TS_array fr_i ltac:(rewrite HlenTS; lia))
      as [ts [Hts Hts']].
    destruct (py_get_valid t_array fr_i ltac:(rewrite Hn; lia))
      as [t [Ht _]].
    rewrite Hts, Ht. eexists. exists ts. split; [reflexivity |]. cbn.
    rewrite !py_upto_nonneg by lia.
    replace (Z.to_nat (fr_i + 1)) with (Z.to_nat fr_i + 1)%nat by lia.
    repeat split; try reflexivity. exact Hts'. }
  split.
  - intros frame_idx Hidx.
    destruct (nth_error fi frame_idx) as [fr_i |] eqn:Hnth;
      [| apply nth_error_None in Hnth; lia].
    pose proof (proj1 (Forall_forall _ _) Hall fr_i (nth_error_In _ _ Hnth))
      as Hr. cbv beta in Hr.
    destruct (Hdraw fr_i Hr (Z.of_nat frame_idx)
                ltac:(rewrite py_get_nonneg; exact Hnth))
      as [fr [ts [Hu [Hf [Hts [HR [H1 [H2 H3]]]]]]]].
    exists fr, ts. rewrite Hf. split; [exact Hu |]. split; [reflexivity |].
    split; [exact Hts |]. split; [exact HR |]. split; [exact H1 |].
    split; [exact H2 |]. split; [exact H3 |].
    rewrite H2, length_firstn, HlenTS. lia.
  - assert (Hidx : py_get fi (Z.of_nat (length fi) - 1)
                   = Some (Z.of_nat (S n') - 1)%Z).
    { rewrite <- Hlast. unfold py_get at 2. cbn [Z.ltb Z.compare].
      destruct fi as [| x fi0]; [discriminate Hfirst |].
      assert (H : (- -1 <=? Z.of_nat (length (x :: fi0)))%Z = true)
        by (apply Z.leb_le; cbn [length]; lia).
      rewrite H. unfold py_get.
      assert (H' : (Z.of_nat (length (x :: fi0)) - 1 <? 0)%Z = false)
        by (apply Z.ltb_ge; cbn [length]; lia).
      rewrite H'. f_equal; lia. }
    destruct (Hdraw (Z.of_nat (S n') - 1)%Z ltac:(lia) _ Hidx)
      as [fr [ts [Hu [_ [_ [_ [H1 [H2 H3]]]]]]]].
    exists fr. split; [exact Hu |].
    replace (Z.to_nat (Z.of_nat (S n') - 1) + 1)%nat with (S n') in H1, H2, H3
      by lia.
    rewrite H1, H2, H3.
    repeat split; apply firstn_all2; lia.
Qed.

(** Three samples in steps of 5: the frames are samples 0 and 2, and the
    last one shows all three tumour sizes. *)
Lemma every_frame_can_be_drawn_witness :
  exists fr,
    update [0%Z; 2%Z] [5; 10; 15] [10; 9; 8] [0; 0.1; 0.2] (2 - 1)
      = Some fr /\
    TS_shown fr = [10; 9; 8].
Proof.
  destruct (every_frame_can_be_drawn 5 [5; 10; 15] [10; 9; 8] [0; 0.1; 0.2]
              [0%Z; 2%Z] ltac:(lra) ltac:(lra) eq_refl eq_refl eq_refl)
    as [_ [fr [Hu [_ [Hts _]]]]].
  exists fr. split; [exact Hu | exact Hts].
Defined.

(** ** Doses at the end of the fixed-interval treatment *)

(** X19. In [10_C2.py] the iteration that adds the bolus of a dose has the
    flag on when the dose time is at least [1e-6] before the end of
    treatment, and off when it is at least [1e-6] after it: a dose the
    schedule places beyond [treatment_duration] is absorbed with the kill
    term switched off. *)
Theorem late_dose_is_given_without_kill :
  forall (dose_times : list float) (treatment_duration t : float) (k : nat),
    dose_due dose_times t k = true ->
    (nth k dose_times 0 + 0.000001 <= treatment_duration ->
     C2.dose_active treatment_duration t = true) /\
    (treatment_duration + 0.000001 <= nth k dose_times 0 ->
     C2.dose_active treatment_duration t = false).
Proof.
  intros dose_times D t k Hdue.
  apply dose_due_spec in Hdue. destruct Hdue as [_ Hclose].
  change 1e-6 with (1 # 1000000) in Hclose.
  apply Qabs_Qlt_condition in Hclose. destruct Hclose as [H1 H2].
  unfold C2.dose_active. split; intro H.
  - apply Qle_bool_iff. lra.
  - apply not_true_iff_false. rewrite Qle_bool_iff. lra.
Qed.

(** The regime with an interval of 2 and a duration of 3.95: the third
    dose, at day 4, is due at grid time 4 and that iteration is not
    active. *)
Lemma late_dose_is_given_without_kill_witness :
  dose_due (dose_times_fixed 3.95 2) 4 2 = true /\
  C2.dose_active 3.95 4 = false.
Proof.
  assert (Hdue : dose_due (dose_times_fixed 3.95 2) 4 2 = true)
    by (vm_compute; reflexivity).
  split; [exact Hdue |].
  apply (proj2 (late_dose_is_given_without_kill (dose_times_fixed 3.95 2)
                  3.95 4 2 Hdue)).
  vm_compute. discriminate.
Defined.

(** ** The drug compartments are linear *)

(** X20. The drug part of the right-hand side is linear in the drug
    amounts, whatever the tumour size, the clock and the flag: the
    derivatives at a sum of two states are the sums of the derivatives, and
    scaling the amounts scales the derivatives, which is what makes
    exposure proportional to the dose. *)
Theorem drug_compartments_are_linear :
  forall (exp : float -> float) (p : Params) (t : float)
         (y z : State) (c : float) (flag_y flag_z flag : bool)
         (TS' clock' : float),
    let sum := mkState (A_gut y + A_gut z) (Ac y + Ac z) (Ap y + Ap z)
                       TS' clock' in
    let scaled := mkState (c * A_gut y) (c * Ac y) (c * Ap y) TS' clock' in
    let dy := tgi_model exp p t y flag_y in
    let dz := tgi_model exp p t z flag_z in
    (dA_gut (tgi_model exp p t sum flag) == dA_gut dy + dA_gut dz /\
     dAc (tgi_model exp p t sum flag) == dAc dy + dAc dz /\
     dAp (tgi_model exp p t sum flag) == dAp dy + dAp dz) /\
    (dA_gut (tgi_model exp p t scaled flag) == c * dA_gut dy /\
     dAc (tgi_model exp p t scaled flag) == c * dAc dy /\
     dAp (tgi_model exp p t scaled flag) == c * dAp dy).
Proof.
  intros exp p t y z c flag_y flag_z flag TS' clock' sum scaled dy dz.
  unfold dy, dz, sum, scaled, tgi_model. cbn.
  repeat split; ring.
Qed.

